(** * Order-execution simulator of backtrader (broker/bbroker.py)

    Shallow embedding of [BrokerBack]: admission control, per-order-type
    matching, execution with ledger update and the end-of-bar
    mark-to-market sweep.

    Numbers.  Python floats are idealised as exact rationals ([Qc], with
    Leibniz equality); sizes, prices, cash and timestamps all live there.
    Truthiness of a number ([if closed:]) is [x <> 0].

    Objects.  The Python code mutates shared [Order] and [Position] objects.
    Here every function takes the object and returns its new value next to
    the new broker; the queues hold the current value of each order and an
    order is identified by its [ref], as [Order.__eq__] does.

    Feeds.  A data feed is an external object the orders and positions refer
    to; the functions that read bars take the feeds of the moment as an
    argument, [Feed].

    The classes [Position], [Order] and [CommInfoBase] are imported by
    bbroker.py from modules that are not among the sources; what the broker
    uses of them is modelled from the specification and marked as such. *)

From Stdlib Require Import QArith Qcanon Qcabs Field.
From stdpp Require Import base decidable option list numbers strings gmap fin_maps.

Open Scope Qc_scope.

(** ** Python helpers *)

(** [bool(x)] for a number. *)
Definition truthy (x : Qc) : bool := bool_decide (x <> 0).

(** [a or b] where [a] is [None] or a number. *)
Definition py_or (a : option Qc) (b : Qc) : Qc :=
  match a with
  | Some v => if truthy v then v else b
  | None => b
  end.

(** Truthiness of an optional number ([None] and [0.0] are false). *)
Definition truthy_opt (a : option Qc) : bool :=
  match a with
  | Some v => truthy v
  | None => false
  end.

Definition Qcleb (x y : Qc) : bool := bool_decide (x ≤ y).
Definition Qcltb (x y : Qc) : bool := bool_decide (x < y).
Definition Qcgeb (x y : Qc) : bool := Qcleb y x.
Definition Qcgtb (x y : Qc) : bool := Qcltb y x.
Definition Qceqb (x y : Qc) : bool := bool_decide (x = y).

(** Number literals. *)
Definition Qz (n : Z) : Qc := Q2Qc (inject_Z n).

(** Identity of a data feed (the Python object used as dictionary key). *)
Definition DataId := nat.

(** ** Data feed (external): the bar at index 0 and the previous one *)
Module Data.
Record t := mk {
  _name : string;
  len : nat;                  (* len(data) *)
  datetime : Z -> Qc;         (* data.datetime[ago], ago = 0 or -1 *)
  open : Qc;                  (* data.open[0] *)
  high : Qc;
  low : Qc;
  close : Qc;
  tick_open : option Qc;
  tick_high : option Qc;
  tick_low : option Qc;
  tick_close : option Qc
}.
End Data.

(** ** Position (backtrader/position.py is not among the sources) *)
Module Position.
(** Modelled from the spec: the Position record of its data model, with the
    source's attribute names [size], [price] (average price) and [adjbase]
    (adjustment base). *)
Record t := mk {
  size : Qc;
  price : Qc;
  adjbase : Qc
}.

(** Modelled from the spec: [Position()] as created by the [defaultdict],
    zero-initialised. *)
Definition new : t := mk 0 0 0.

Definition set_adjbase (b : Qc) (p : t) : t := mk (size p) (price p) b.

(** Modelled from the spec: [bool(position)], an open position is one with
    a non-zero size. *)
Definition bool_ (p : t) : bool := truthy (size p).

(** Modelled from the spec: [position.clone()], a deep value copy. *)
Definition clone (p : t) : t := p.

(** Modelled from the spec: [Position.update(size, price)] of
    backtrader/position.py, which is missing.  Reducing toward zero is a
    close, a same-direction increase is an open, a cross through zero is
    both: the full reduction of the old side is a close, the remainder is an
    open at the new side.  The average price is the size-weighted mean on an
    increase, the fill price on a fresh or reversed position, unchanged on a
    reduction and zero on a flat position.  Returns the updated position and
    the tuple [(size, price, opened, closed)]. *)
Definition update (p : t) (sz pr : Qc) : t * (Qc * Qc * Qc * Qc) :=
  let oldsize := size p in
  let newsize := oldsize + sz in
  let '(newprice, opened, closed) :=
    if negb (truthy newsize) then (0, 0, sz)
    else if negb (truthy oldsize) then (pr, sz, 0)
    else if Qcgtb oldsize 0 then
      if Qcgtb sz 0 then ((price p * oldsize + sz * pr) / newsize, sz, 0)
      else if Qcgtb newsize 0 then (price p, 0, sz)
      else (pr, newsize, - oldsize)
    else
      if Qcltb sz 0 then ((price p * oldsize + sz * pr) / newsize, sz, 0)
      else if Qcltb newsize 0 then (price p, 0, sz)
      else (pr, newsize, - oldsize) in
  (mk newsize newprice (adjbase p), (newsize, newprice, opened, closed)).

(** Modelled from the spec: [Position.pseudoupdate], the same computation on
    a throw-away copy. *)
Definition pseudoupdate (p : t) (sz pr : Qc) : Qc * Qc * Qc * Qc :=
  snd (update (clone p) sz pr).
End Position.

(** ** Commission model (backtrader/comminfo.py is not among the sources)

    The broker only consumes the interface, so a commission scheme is taken
    as a parameter: a record of its attributes and pure functions. *)
Module CommInfo.
Record t := mk {
  stocklike : bool;
  margin : option Qc;
  getoperationcost : Qc -> Qc -> Qc;       (* (size, price) *)
  getcommission : Qc -> Qc -> Qc;          (* (size, price) *)
  cashadjust : Qc -> Qc -> Qc -> Qc;       (* (size, price, newprice) *)
  profitandloss : Qc -> Qc -> Qc -> Qc;    (* (size, price, newprice) *)
  getvalue : Position.t -> Qc -> Qc        (* (position, price) *)
}.

(** [pnl * comminfo.stocklike]: the bool is 1 or 0. *)
Definition stockflag (c : t) : Qc := if stocklike c then Qz 1 else 0.

(** Modelled from the spec: the contract of [cashAdjust], which returns 0
    for stock-like instruments (only futures-like ones settle daily). *)
Definition settles_futures_only (c : t) : Prop :=
  stocklike c = true -> forall s p q, cashadjust c s p q = 0.
End CommInfo.

(** ** Order (backtrader/order.py is not among the sources) *)
Module Order.
Inductive ExecType := Market | Close | Limit | Stop | StopLimit.

Inductive Status :=
  Created | Submitted | Accepted | Partial | Completed
| Canceled | Expired | Margin | Rejected.

(** Modelled from the spec: one fill of the execution record, with the
    arguments [order.execute] receives. *)
Record ExecBit := mkbit {
  dt : Qc;
  size : Qc;
  price : Qc;
  closed : Qc;
  closedvalue : Qc;
  closedcomm : Qc;
  opened : Qc;
  openedvalue : Qc;
  openedcomm : Qc;
  marginreq : option Qc;     (* comminfo.margin *)
  pnl : Qc;
  psize : Qc;
  pprice : Qc
}.

(** Modelled from the spec: the Order record of its data model, with the
    source's attribute names. *)
Record t := mk {
  ref : nat;
  data : DataId;
  isbuy : bool;
  exectype : ExecType;
  status : Status;
  created_price : Qc;           (* order.created.price *)
  created_pricelimit : Qc;      (* order.created.pricelimit *)
  valid : option Qc;
  executed_remsize : Qc;        (* order.executed.remsize, signed *)
  executed_bits : list ExecBit; (* fills, oldest first *)
  triggered : bool;
  pannotated : option Qc;
  plen : nat;
  dteos : Qc
}.

Definition set_status (s : Status) (o : t) : t :=
  mk (ref o) (data o) (isbuy o) (exectype o) s (created_price o)
     (created_pricelimit o) (valid o) (executed_remsize o) (executed_bits o)
     (triggered o) (pannotated o) (plen o) (dteos o).

Definition set_triggered (b : bool) (o : t) : t :=
  mk (ref o) (data o) (isbuy o) (exectype o) (status o) (created_price o)
     (created_pricelimit o) (valid o) (executed_remsize o) (executed_bits o)
     b (pannotated o) (plen o) (dteos o).

Definition set_pannotated (p : option Qc) (o : t) : t :=
  mk (ref o) (data o) (isbuy o) (exectype o) (status o) (created_price o)
     (created_pricelimit o) (valid o) (executed_remsize o) (executed_bits o)
     (triggered o) p (plen o) (dteos o).

Definition set_executed (rem : Qc) (bits : list ExecBit) (o : t) : t :=
  mk (ref o) (data o) (isbuy o) (exectype o) (status o) (created_price o)
     (created_pricelimit o) (valid o) rem bits
     (triggered o) (pannotated o) (plen o) (dteos o).

(** Modelled from the spec: the status setters of the missing [Order]
    class. *)
Definition submit (o : t) : t := set_status Submitted o.
Definition accept (o : t) : t := set_status Accepted o.
Definition margin (o : t) : t := set_status Margin o.
Definition cancel (o : t) : t := set_status Canceled o.

(** Modelled from the spec: an order is alive until it reaches one of the
    terminal states Completed, Canceled, Expired, MarginRejected, Rejected. *)
Definition alive (o : t) : bool :=
  match status o with
  | Created | Submitted | Accepted | Partial => true
  | _ => false
  end.

(** Modelled from the spec: [order.expire()], the passive per-bar check of
    the validity timestamp ([None] is good-till-canceled) against the
    current bar's time; an expired order gets status Expired. *)
Definition expire (dt0 : Qc) (o : t) : bool * t :=
  match valid o with
  | Some v => if Qcgtb dt0 v then (true, set_status Expired o) else (false, o)
  | None => (false, o)
  end.

(** Modelled from the spec: [order.execute(...)] appends the fill to the
    execution record, advances the remaining size and sets the status to
    Completed (nothing remains) or Partial. *)
Definition execute (o : t) (b : ExecBit) : t :=
  let rem := executed_remsize o - size b in
  set_status (if truthy rem then Partial else Completed)
    (set_executed rem (executed_bits o ++ [b]) o).

(** Modelled from the spec: [order.clone()], the immutable snapshot
    delivered to the notification queue. *)
Definition clone (o : t) : t := o.
End Order.

(** ** The broker simulator *)

(** The feeds as the broker sees them during one call: data object -> bar. *)
Definition Feed := DataId -> Data.t.

(** [filler(order, price, ago)]; it reads the order's data through the feed. *)
Definition Filler := Feed -> Order.t -> Qc -> Z -> Qc.

Record BrokerBack := mkBroker {
  p_checksubmit : bool;
  p_eosbar : bool;
  p_filler : option Filler;
  p_commission : CommInfo.t;
  comminfo : gmap string CommInfo.t;   (* the entries with a name *)
  startingcash : Qc;
  cash : Qc;
  orders : list nat;                   (* refs, only appended *)
  pending : list Order.t;              (* deque: popleft, append(right) *)
  positions : gmap DataId Position.t;  (* defaultdict(Position) *)
  notifs : list Order.t;               (* deque of snapshots *)
  submitted : list Order.t
}.

Definition with_cash (c : Qc) (b : BrokerBack) : BrokerBack :=
  mkBroker (p_checksubmit b) (p_eosbar b) (p_filler b) (p_commission b)
    (comminfo b) (startingcash b) c (orders b) (pending b) (positions b)
    (notifs b) (submitted b).

Definition with_orders (l : list nat) (b : BrokerBack) : BrokerBack :=
  mkBroker (p_checksubmit b) (p_eosbar b) (p_filler b) (p_commission b)
    (comminfo b) (startingcash b) (cash b) l (pending b) (positions b)
    (notifs b) (submitted b).

Definition with_pending (l : list Order.t) (b : BrokerBack) : BrokerBack :=
  mkBroker (p_checksubmit b) (p_eosbar b) (p_filler b) (p_commission b)
    (comminfo b) (startingcash b) (cash b) (orders b) l (positions b)
    (notifs b) (submitted b).

Definition with_positions (m : gmap DataId Position.t) (b : BrokerBack)
  : BrokerBack :=
  mkBroker (p_checksubmit b) (p_eosbar b) (p_filler b) (p_commission b)
    (comminfo b) (startingcash b) (cash b) (orders b) (pending b) m
    (notifs b) (submitted b).

Definition with_notifs (l : list Order.t) (b : BrokerBack) : BrokerBack :=
  mkBroker (p_checksubmit b) (p_eosbar b) (p_filler b) (p_commission b)
    (comminfo b) (startingcash b) (cash b) (orders b) (pending b)
    (positions b) l (submitted b).

Definition with_submitted (l : list Order.t) (b : BrokerBack) : BrokerBack :=
  mkBroker (p_checksubmit b) (p_eosbar b) (p_filler b) (p_commission b)
    (comminfo b) (startingcash b) (cash b) (orders b) (pending b)
    (positions b) (notifs b) l.

(** [BrokerBack.init] with the given parameters. *)
Definition init (p_cash : Qc) (checksubmit eosbar : bool)
    (filler : option Filler) (commission : CommInfo.t) : BrokerBack :=
  mkBroker checksubmit eosbar filler commission ∅ p_cash p_cash [] [] ∅ [] [].

(** [getcommissioninfo]: the scheme registered for the data's name, else the
    one stored under [None], which [init] sets to [p.commission]. *)
Definition getcommissioninfo (feed : Feed) (self : BrokerBack) (d : DataId)
  : CommInfo.t :=
  match comminfo self !! Data._name (feed d) with
  | Some c => c
  | None => p_commission self
  end.

Definition get_cash (self : BrokerBack) : Qc := cash self.

(** [self.positions[data]] on the [defaultdict]: a missing key is inserted
    with a fresh [Position()]. *)
Definition positions_getitem (self : BrokerBack) (d : DataId)
  : Position.t * BrokerBack :=
  match positions self !! d with
  | Some p => (p, self)
  | None =>
      (Position.new, with_positions (<[d := Position.new]> (positions self)) self)
  end.

Definition getposition (self : BrokerBack) (d : DataId)
  : Position.t * BrokerBack := positions_getitem self d.

(** The position an observer reads for [d], without the insertion. *)
Definition position_of (self : BrokerBack) (d : DataId) : Position.t :=
  default Position.new (positions self !! d).

Definition notify (self : BrokerBack) (order : Order.t) : BrokerBack :=
  with_notifs (notifs self ++ [Order.clone order]) self.

Definition get_notification (self : BrokerBack)
  : option Order.t * BrokerBack :=
  match notifs self with
  | o :: rest => (Some o, with_notifs rest self)
  | [] => (None, self)
  end.

(** [deque.remove(order)]: drops the first element equal to [order]
    (same [ref]); [None] stands for the [ValueError]. *)
Fixpoint deque_remove (r : nat) (q : list Order.t) : option (list Order.t) :=
  match q with
  | [] => None
  | o :: rest =>
      if bool_decide (Order.ref o = r) then Some rest
      else match deque_remove r rest with
           | Some rest' => Some (o :: rest')
           | None => None
           end
  end.

Definition cancel (self : BrokerBack) (order : Order.t) : bool * BrokerBack :=
  match deque_remove (Order.ref order) (pending self) with
  | None => (false, self)
  | Some rest =>
      let self := with_pending rest self in
      let order := Order.cancel order in
      (true, notify self order)
  end.

Definition submit_accept (self : BrokerBack) (order : Order.t)
  : BrokerBack * Order.t :=
  let order := Order.set_pannotated None order in
  let order := Order.accept order in
  let self := with_pending (pending self ++ [order]) self in
  (notify self order, order).

Definition submit (self : BrokerBack) (order : Order.t)
  : BrokerBack * Order.t :=
  if p_checksubmit self then
    let order := Order.submit order in
    let self := with_submitted (submitted self ++ [order]) self in
    let self := with_orders (orders self ++ [Order.ref order]) self in
    (notify self order, order)
  else submit_accept self order.

(** *** Execution and ledger update *)

(** The two ways [_execute] is called: a real execution
    [_execute(order, ago=.., price=..)] and the pseudo-execution of the
    admission check [_execute(order, cash=.., position=..)] ([ago is None]). *)
Inductive ExecArgs :=
| RealExec (ago : Z) (price : Qc)
| PseudoExec (cash : Qc) (position : Position.t).

Definition is_real (a : ExecArgs) : bool :=
  match a with RealExec _ _ => true | PseudoExec _ _ => false end.

Record ExecResult := mkRes {
  res_self : BrokerBack;
  res_order : Order.t;
  res_position : Position.t;   (* the position object after the call *)
  res_return : option Qc       (* the returned cash of a pseudo-execution *)
}.

(** Components of the tuple [psize, pprice, opened, closed]. *)
Definition tup_psize (u : Qc * Qc * Qc * Qc) : Qc := u.1.1.1.
Definition tup_pprice (u : Qc * Qc * Qc * Qc) : Qc := u.1.1.2.
Definition tup_opened (u : Qc * Qc * Qc * Qc) : Qc := u.1.2.
Definition tup_closed (u : Qc * Qc * Qc * Qc) : Qc := u.2.

(** [_execute].  [comminfo.confirmexec] and [order.addcomminfo] leave no
    trace in the broker and are omitted; the live position is written back
    into [positions] when the call ends. *)
Definition _execute (feed : Feed) (self : BrokerBack) (order : Order.t)
    (args : ExecArgs) : ExecResult :=
  let data := Order.data order in
  let size :=
    match p_filler self, args with
    | Some filler, RealExec ago price =>
        (* Execution depends on volume filler *)
        let size := filler feed order price ago in
        if Order.isbuy order then size else - size
    | _, _ =>
        (* Order gets full size or pseudo-execution *)
        Order.executed_remsize order
    end in
  let comminfo := getcommissioninfo feed self data in
  (* Adjust position with operation size *)
  let '(self, position, price, pprice_orig, u, pnl, cash0) :=
    match args with
    | RealExec ago price =>
        let gp := positions_getitem self data in
        let position := gp.1 in
        let pprice_orig := Position.price position in
        let u := Position.pseudoupdate position size price in
        let pnl :=
          CommInfo.profitandloss comminfo (- tup_closed u) pprice_orig price in
        (gp.2, position, price, pprice_orig, u, pnl, cash gp.2)
    | PseudoExec cash position =>
        let price := Order.created_price order in
        let pu := Position.update position size price in
        (self, pu.1, price, price, pu.2, 0, cash)
    end in
  let psize := tup_psize u in
  let pprice := tup_pprice u in
  let opened := tup_opened u in
  let closed := tup_closed u in
  (* "Closing" totally or partially is possible. Cash may be re-injected *)
  let '(cash1, closedvalue, closedcomm, self) :=
    if truthy closed then
      let closedvalue := CommInfo.getoperationcost comminfo closed pprice_orig in
      let cash1 := cash0 + (closedvalue + pnl * CommInfo.stockflag comminfo) in
      let closedcomm := CommInfo.getcommission comminfo closed price in
      let cash1 := cash1 - closedcomm in
      if is_real args then
        let cash1 :=
          cash1 + CommInfo.cashadjust comminfo (- closed)
                    (Position.adjbase position) price in
        (cash1, closedvalue, closedcomm, with_cash cash1 self)
      else (cash1, closedvalue, closedcomm, self)
    else (cash0, 0, 0, self) in
  let popened := opened in
  let '(cash2, opened, openedvalue, openedcomm, position, self) :=
    if truthy opened then
      let openedvalue := CommInfo.getoperationcost comminfo opened price in
      let cash2 := cash1 - openedvalue in
      let openedcomm := CommInfo.getcommission comminfo opened price in
      let cash2 := cash2 - openedcomm in
      if Qcltb cash2 0 then
        (* execution is not possible - nullify *)
        (cash2, 0, 0, 0, position, self)
      else if is_real args then
        let cash2 :=
          if Qcgtb (Qcabs psize) (Qcabs opened) then
            let adjsize := psize - opened in
            cash2 + CommInfo.cashadjust comminfo adjsize
                      (Position.adjbase position) price
          else cash2 in
        (* record adjust price base for end of bar cash adjustment *)
        let position := Position.set_adjbase price position in
        (cash2, opened, openedvalue, openedcomm, position, with_cash cash2 self)
      else (cash2, opened, openedvalue, openedcomm, position, self)
    else (cash1, opened, 0, 0, position, self) in
  match args with
  | PseudoExec _ _ =>
      (* return cash from pseudo-execution *)
      mkRes self order position (Some cash2)
  | RealExec ago _ =>
      let execsize := closed + opened in
      let '(self, order, position) :=
        if truthy execsize then
          (* do a real position update if something was executed *)
          let position := (Position.update position execsize price).1 in
          let order :=
            Order.execute order
              (Order.mkbit (Data.datetime (feed data) ago) execsize price
                 closed closedvalue closedcomm opened openedvalue openedcomm
                 (CommInfo.margin comminfo) pnl psize pprice) in
          (notify self order, order, position)
        else (self, order, position) in
      let '(self, order) :=
        if truthy popened && negb (truthy opened) then
          (* opened was not executed - not enough cash *)
          let order := Order.margin order in
          (notify self order, order)
        else (self, order) in
      mkRes (with_positions (<[data := position]> (positions self)) self)
        order position None
  end.

(** A real execution as the matching rules use it. *)
Definition execute_at (feed : Feed) (self : BrokerBack) (order : Order.t)
    (ago : Z) (price : Qc) : BrokerBack * Order.t :=
  let r := _execute feed self order (RealExec ago price) in
  (res_self r, res_order r).

(** *** Admission control *)

(** [positions.setdefault(key, value)] on the scratch dictionary. *)
Definition setdefault (m : gmap DataId Position.t) (k : DataId)
    (v : Position.t) : Position.t * gmap DataId Position.t :=
  match m !! k with
  | Some p => (p, m)
  | None => (v, <[k := v]> m)
  end.

(** The [while self.submitted] loop of [check_submitted]; [queue] is
    [self.submitted], which nothing but the [popleft] touches. *)
Fixpoint check_submitted_loop (feed : Feed) (queue : list Order.t) (cash : Qc)
    (positions : gmap DataId Position.t) (self : BrokerBack) : BrokerBack :=
  match queue with
  | [] => self
  | order :: rest =>
      let self := with_submitted rest self in
      let gp := positions_getitem self (Order.data order) in
      let self := gp.2 in
      let sd := setdefault positions (Order.data order) (Position.clone gp.1) in
      let position := sd.1 in
      (* pseudo-execute the order to get the remaining cash after exec *)
      let r := _execute feed self order (PseudoExec cash position) in
      let cash := default 0 (res_return r) in
      let positions := <[Order.data order := res_position r]> sd.2 in
      if Qcgeb cash 0 then
        check_submitted_loop feed rest cash positions
          (submit_accept (res_self r) (res_order r)).1
      else
        let order := Order.margin (res_order r) in
        check_submitted_loop feed rest cash positions (notify (res_self r) order)
  end.

Definition check_submitted (feed : Feed) (self : BrokerBack) : BrokerBack :=
  check_submitted_loop feed (submitted self) (cash self) ∅ self.

(** *** Matching rules *)

Definition _try_exec_close (feed : Feed) (self : BrokerBack) (order : Order.t)
    (pclose : Qc) : BrokerBack * Order.t :=
  let d := feed (Order.data order) in
  let annotate := (self, Order.set_pannotated (Some pclose) order) in
  if bool_decide (Order.plen order < Data.len d)%nat then
    let dt0 := Data.datetime d 0 in
    if Qcgtb dt0 (Order.dteos order)
       || (p_eosbar self && Qceqb dt0 (Order.dteos order)) then
      (* past the end of session or right at it and eosbar is True *)
      let '(ago, execprice) :=
        match Order.pannotated order with
        | Some pa =>
            if truthy pa && negb (Qceqb dt0 (Order.dteos order))
            then ((-1)%Z, pa) else (0%Z, pclose)
        | None => (0%Z, pclose)
        end in
      execute_at feed self order 0 execprice
    else annotate
  else annotate.

Definition _try_exec_limit (feed : Feed) (self : BrokerBack) (order : Order.t)
    (popen phigh plow plimit : Qc) : BrokerBack * Order.t :=
  if Order.isbuy order then
    if Qcgeb plimit popen then
      (* open smaller/equal than requested - buy cheaper *)
      execute_at feed self order 0 popen
    else if Qcgeb plimit plow then
      (* day low below req price ... match limit price *)
      execute_at feed self order 0 plimit
    else (self, order)
  else
    if Qcleb plimit popen then
      (* open greater/equal than requested - sell more expensive *)
      execute_at feed self order 0 popen
    else if Qcleb plimit phigh then
      (* day high above req price ... match limit price *)
      execute_at feed self order 0 plimit
    else (self, order).

Definition _try_exec_stop (feed : Feed) (self : BrokerBack) (order : Order.t)
    (popen phigh plow pcreated : Qc) : BrokerBack * Order.t :=
  if Order.isbuy order then
    if Qcgeb popen pcreated then
      execute_at feed self order 0 popen
    else if Qcgeb phigh pcreated then
      execute_at feed self order 0 pcreated
    else (self, order)
  else
    if Qcleb popen pcreated then
      execute_at feed self order 0 popen
    else if Qcleb plow pcreated then
      execute_at feed self order 0 pcreated
    else (self, order).

Definition _try_exec_stoplimit (feed : Feed) (self : BrokerBack)
    (order : Order.t) (popen phigh plow pclose pcreated plimit : Qc)
  : BrokerBack * Order.t :=
  if Order.isbuy order then
    if Qcgeb popen pcreated then
      let order := Order.set_triggered true order in
      (* price penetrated with an open gap *)
      if Qcgeb plimit popen then execute_at feed self order 0 popen
      else if Qcgeb plimit plow then execute_at feed self order 0 plimit
      else (self, order)
    else if Qcgeb phigh pcreated then
      (* price penetrated upwards during the session *)
      let order := Order.set_triggered true order in
      if Qcgtb popen pclose then
        if Qcgeb plimit pcreated then execute_at feed self order 0 pcreated
        else if Qcgeb plimit pclose then execute_at feed self order 0 plimit
        else (self, order)
      else
        if Qcgeb plimit pcreated then execute_at feed self order 0 pcreated
        else (self, order)
    else (self, order)
  else
    if Qcleb popen pcreated then
      (* price penetrated downwards with an open gap *)
      let order := Order.set_triggered true order in
      if Qcleb plimit popen then execute_at feed self order 0 popen
      else if Qcleb plimit phigh then execute_at feed self order 0 plimit
      else (self, order)
    else if Qcleb plow pcreated then
      (* price penetrated downwards during the session *)
      let order := Order.set_triggered true order in
      if Qcleb popen pclose then
        if Qcleb plimit pcreated then execute_at feed self order 0 pcreated
        else if Qcleb plimit pclose then execute_at feed self order 0 plimit
        else (self, order)
      else
        if Qcleb plimit pcreated then execute_at feed self order 0 pcreated
        else (self, order)
    else (self, order).

Definition _try_exec (feed : Feed) (self : BrokerBack) (order : Order.t)
  : BrokerBack * Order.t :=
  let data := feed (Order.data order) in
  let popen := py_or (Data.tick_open data) (Data.open data) in
  let phigh := py_or (Data.tick_high data) (Data.high data) in
  let plow := py_or (Data.tick_low data) (Data.low data) in
  let pclose := py_or (Data.tick_close data) (Data.close data) in
  let pcreated := Order.created_price order in
  let plimit := Order.created_pricelimit order in
  match Order.exectype order with
  | Order.Market => execute_at feed self order 0 popen
  | Order.Close => _try_exec_close feed self order pclose
  | Order.Limit => _try_exec_limit feed self order popen phigh plow pcreated
  | Order.StopLimit =>
      if Order.triggered order
      then _try_exec_limit feed self order popen phigh plow plimit
      else _try_exec_stoplimit feed self order popen phigh plow pclose
             pcreated plimit
  | Order.Stop => _try_exec_stop feed self order popen phigh plow pcreated
  end.

(** *** One simulation step *)

(** The loop [for i in range(len(self.pending))] of [next]. *)
Fixpoint next_loop (feed : Feed) (n : nat) (self : BrokerBack) : BrokerBack :=
  match n with
  | O => self
  | S n' =>
      match pending self with
      | [] => self
      | order :: rest =>
          let self := with_pending rest self in
          let '(expired, order) :=
            Order.expire (Data.datetime (feed (Order.data order)) 0) order in
          if expired then next_loop feed n' (notify self order)
          else
            let '(self, order) := _try_exec feed self order in
            let self :=
              if Order.alive order
              then with_pending (pending self ++ [order]) self
              else self in
            next_loop feed n' self
      end
  end.

(** Body of the loop [for data, pos in self.positions.items()]. *)
Definition cashadjust_item (feed : Feed) (self : BrokerBack)
    (item : DataId * Position.t) : BrokerBack :=
  let data := item.1 in
  let pos := item.2 in
  (* futures change cash every bar *)
  if Position.bool_ pos then
    let comminfo := getcommissioninfo feed self data in
    let self :=
      with_cash (cash self + CommInfo.cashadjust comminfo (Position.size pos)
                               (Position.adjbase pos) (Data.close (feed data)))
        self in
    (* record the last adjustment price *)
    with_positions
      (<[data := Position.set_adjbase (Data.close (feed data)) pos]>
         (positions self)) self
  else self.

(** The state after admission and matching, before the end-of-bar sweep. *)
Definition next_matched (feed : Feed) (self : BrokerBack) : BrokerBack :=
  let self := if p_checksubmit self then check_submitted feed self else self in
  next_loop feed (length (pending self)) self.

Definition next (feed : Feed) (self : BrokerBack) : BrokerBack :=
  let self := next_matched feed self in
  (* Operations have been executed ... adjust cash end of bar *)
  foldl (cashadjust_item feed) self (map_to_list (positions self)).

(** *** Portfolio value *)

(** The loop of [get_value]: [inl v] is the early [return dvalue]. *)
Fixpoint get_value_loop (feed : Feed) (single : bool) (l : list DataId)
    (pos_value : Qc) (self : BrokerBack) : (Qc + Qc) * BrokerBack :=
  match l with
  | [] => (inr pos_value, self)
  | data :: rest =>
      let comminfo := getcommissioninfo feed self data in
      let gp := positions_getitem self data in
      let dvalue := CommInfo.getvalue comminfo gp.1 (Data.close (feed data)) in
      if single then (inl dvalue, gp.2)
      else get_value_loop feed single rest (pos_value + Qcabs dvalue) gp.2
  end.

Definition get_value (feed : Feed) (self : BrokerBack)
    (datas : option (list DataId)) : Qc * BrokerBack :=
  let iter :=
    match datas with
    | Some (d :: l) => d :: l
    | _ => (map_to_list (positions self)).*1
    end in
  let single :=
    match datas with
    | Some (_ :: nil) => true
    | _ => false
    end in
  let r := get_value_loop feed single iter 0 self in
  match r.1 with
  | inl dvalue => (dvalue, r.2)
  | inr pos_value => (cash r.2 + pos_value, r.2)
  end.

(** ** Sample schemes and feeds used by the examples *)

(** A stock-like scheme: an operation costs [|size| * price], the commission
    is [comm] per unit, there is no daily settlement. *)
Definition stock_scheme (comm : Qc) : CommInfo.t :=
  CommInfo.mk true None
    (fun s p => Qcabs s * p)
    (fun s _ => Qcabs s * comm)
    (fun _ _ _ => 0)
    (fun s p np => s * (np - p))
    (fun pos p => Position.size pos * p).

(** A futures-like scheme: an operation blocks [|size| * margin], price moves
    are settled in cash with multiplier [mult]. *)
Definition futures_scheme (mrg mult comm : Qc) : CommInfo.t :=
  CommInfo.mk false (Some mrg)
    (fun s _ => Qcabs s * mrg)
    (fun s _ => Qcabs s * comm)
    (fun s p np => s * (np - p) * mult)
    (fun s p np => s * (np - p) * mult)
    (fun pos _ => Qcabs (Position.size pos) * mrg).

(** A bar with the given timestamp and open/high/low/close, without ticks;
    the previous bar is one time unit earlier. *)
Definition bar (dt o h l c : Z) : Data.t :=
  Data.mk "asset" 2 (fun ago => Qz (dt + ago)) (Qz o) (Qz h) (Qz l) (Qz c)
    None None None None.

(** A fresh order on feed 0, as [BuyOrder]/[SellOrder] create it: the
    remaining size is signed. *)
Definition new_order (ref : nat) (isbuy : bool) (ty : Order.ExecType)
    (size price plimit : Z) : Order.t :=
  Order.mk ref 0%nat isbuy ty Order.Created (Qz price) (Qz plimit) None
    (if isbuy then Qz size else - Qz size) [] false None 1 (Qz 1000).

(** ** Cash conservation of a real execution *)

(** The size [_execute] works with on a real execution. *)
Definition fill_size (feed : Feed) (self : BrokerBack) (order : Order.t)
    (ago : Z) (price : Qc) : Qc :=
  match p_filler self with
  | Some filler =>
      let size := filler feed order price ago in
      if Order.isbuy order then size else - size
  | None => Order.executed_remsize order
  end.

(** The legs of one fill, following section 4.3 of the specification: the
    close leg (returned value, commission, realized profit and loss, cash
    adjustment of the closed contracts), then the open leg (cost, commission,
    re-basing of the pre-existing same-direction exposure), which is voided
    as a whole when it would leave the cash negative. *)
Record Legs := mkLegs {
  closeValue : Qc;
  closeCommission : Qc;
  realizedPnL : Qc;
  adjustClosed : Qc;
  openedSize : Qc;
  openCost : Qc;
  openCommission : Qc;
  adjustRebase : Qc
}.

Definition legs_of (ci : CommInfo.t) (pos : Position.t) (cash0 size price : Qc)
  : Legs :=
  let u := Position.pseudoupdate pos size price in
  let closed := tup_closed u in
  let opened := tup_opened u in
  let has_close := truthy closed in
  let cv := if has_close
            then CommInfo.getoperationcost ci closed (Position.price pos)
            else 0 in
  let cc := if has_close then CommInfo.getcommission ci closed price else 0 in
  let pnl := if has_close
             then CommInfo.profitandloss ci (- closed) (Position.price pos) price
             else 0 in
  let ac := if has_close
            then CommInfo.cashadjust ci (- closed) (Position.adjbase pos) price
            else 0 in
  let after_close := cash0 + cv + pnl * CommInfo.stockflag ci - cc + ac in
  let cost := CommInfo.getoperationcost ci opened price in
  let comm := CommInfo.getcommission ci opened price in
  let has_open := truthy opened && negb (Qcltb (after_close - cost - comm) 0) in
  mkLegs cv cc pnl ac
    (if has_open then opened else 0)
    (if has_open then cost else 0)
    (if has_open then comm else 0)
    (if has_open && Qcgtb (Qcabs (tup_psize u)) (Qcabs opened)
     then CommInfo.cashadjust ci (tup_psize u - opened)
            (Position.adjbase pos) price
     else 0).

(** ** Voiding of the open leg at fill time *)

(** Cash once the close leg of a fill has been applied. *)
Definition cash_after_close (ci : CommInfo.t) (pos : Position.t)
    (cash0 size price : Qc) : Qc :=
  let l := legs_of ci pos cash0 size price in
  cash0 + closeValue l + realizedPnL l * CommInfo.stockflag ci
  - closeCommission l + adjustClosed l.

(** A long position of 10 units at 100 with 500 in cash; a market sell of 30
    closes the 10 and would open 20 short, which the cash cannot cover. *)
Definition voiding_feed : Feed := fun _ => bar 10 100 105 97 102.
Definition voiding_order : Order.t :=
  Order.accept (new_order 1 false Order.Market 30 100 0).
Definition voiding_broker : BrokerBack :=
  with_positions {[ 0%nat := Position.mk (Qz 10) (Qz 100) (Qz 100) ]}
    (init (Qz 500) true false None (stock_scheme 0)).

(** ** Admission control *)

(** The pseudo-execution of the admission check as a function of the
    scratch cash and the scratch position: returned cash and position. *)
Definition pseudo (feed : Feed) (self : BrokerBack) (order : Order.t)
    (c : Qc) (p : Position.t) : Qc * Position.t :=
  let r := _execute feed self order (PseudoExec c p) in
  (default 0 (res_return r), res_position r).

Arguments _execute : simpl never.
Arguments pseudo : simpl never.

Ltac break_ifs :=
  repeat (match goal with
          | |- context [if ?c then _ else _] => destruct c eqn:?
          end; cbn iota).

(** The verdict of the admission check on one order, given the cash its
    pseudo-execution returned: the snapshot that is notified. *)
Definition verdict (oc : Order.t * Qc) : Order.t :=
  if Qcgeb oc.2 0
  then Order.accept (Order.set_pannotated None oc.1)
  else Order.margin oc.1.

Definition admitted (oc : Order.t * Qc) : option Order.t :=
  if Qcgeb oc.2 0 then Some (verdict oc) else None.

(** The scratch cash after each order of the batch: seeded with [c], then
    threaded in queue order; [scratch] holds the cloned positions. *)
Fixpoint admission (feed : Feed) (self : BrokerBack) (queue : list Order.t)
    (c : Qc) (scratch : gmap DataId Position.t) : list (Order.t * Qc) :=
  match queue with
  | [] => []
  | order :: rest =>
      let d := Order.data order in
      let p := default (position_of self d) (scratch !! d) in
      let r := pseudo feed self order c p in
      (order, r.1) :: admission feed self rest r.1 (<[d := r.2]> scratch)
  end.

(** Two brokers the admission check cannot tell apart. *)
Definition same_ledger (feed : Feed) (a b : BrokerBack) : Prop :=
  cash a = cash b
  /\ (forall d, position_of a d = position_of b d)
  /\ (forall d, getcommissioninfo feed a d = getcommissioninfo feed b d).

(** Scenario E: cash 100 and a market buy of 5 units created at price 100. *)
Definition scenarioE_feed : Feed := fun _ => bar 10 100 105 97 102.
Definition scenarioE_order : Order.t := new_order 1 true Order.Market 5 100 0.
Definition scenarioE_broker : BrokerBack :=
  (submit (init (Qz 100) true false None (stock_scheme 0)) scenarioE_order).1.

(** Two buys in one batch: the first (10 units at 50) does not fit in the
    cash of 100, the second (1 unit at 50) would fit on its own. *)
Definition batch_first : Order.t := new_order 1 true Order.Limit 10 50 0.
Definition batch_second : Order.t := new_order 2 true Order.Limit 1 50 0.
Definition batch_broker (queue : list Order.t) : BrokerBack :=
  with_submitted queue (init (Qz 100) true false None (stock_scheme 0)).

(** ** End-of-bar mark-to-market *)

Definition Qcsum (l : list Qc) : Qc := foldr Qcplus 0 l.

(** The settlement of one instrument at the end of the bar: the cash
    adjustment from the adjustment base to the close for an open position,
    nothing for a flat one. *)
Definition settlement (feed : Feed) (self : BrokerBack)
    (item : DataId * Position.t) : Qc :=
  if Position.bool_ item.2 then
    CommInfo.cashadjust (getcommissioninfo feed self item.1)
      (Position.size item.2) (Position.adjbase item.2)
      (Data.close (feed item.1))
  else 0.

(** The position after the sweep: re-based to the close when open. *)
Definition rebased (feed : Feed) (d : DataId) (pos : Position.t)
  : Position.t :=
  if Position.bool_ pos
  then Position.set_adjbase (Data.close (feed d)) pos
  else pos.

(** ** What matching leaves alone *)

(** [o'] is a later value of the order object [o]: the fields the broker
    never assigns are the same, and a set [triggered] flag stays set. *)
Definition descends (o o' : Order.t) : Prop :=
  Order.ref o' = Order.ref o
  /\ Order.data o' = Order.data o
  /\ Order.isbuy o' = Order.isbuy o
  /\ Order.exectype o' = Order.exectype o
  /\ Order.created_price o' = Order.created_price o
  /\ Order.created_pricelimit o' = Order.created_pricelimit o
  /\ (Order.triggered o = true -> Order.triggered o' = true).

(** The part of the broker a real execution does not touch. *)
Definition same_queues (a b : BrokerBack) : Prop :=
  pending a = pending b /\ submitted a = submitted b
  /\ p_checksubmit a = p_checksubmit b.

Ltac frame_cases :=
  repeat match goal with
    | |- context [if ?c then _ else _] => destruct c
    | |- context [match ?c with Some _ => _ | None => _ end] => destruct c
    end.

(** ** Matching rules *)

(** Scenario B: a buy Limit at 95 on a bar with open 100, high 105, low 97. *)
Definition scenarioB_feed : Feed := fun _ => bar 10 100 105 97 102.
Definition scenarioB_order : Order.t :=
  Order.accept (new_order 1 true Order.Limit 10 95 0).
Definition scenarioB_broker : BrokerBack :=
  with_pending [scenarioB_order]
    (init (Qz 10000) true false None (stock_scheme 0)).

(** Scenario F: trigger 105, limit 106, a bar opening at 107 with high 110
    and low 104. *)
Definition scenarioF_feed : Feed := fun _ => bar 10 107 110 104 108.
Definition scenarioF_order : Order.t :=
  Order.accept (new_order 1 true Order.StopLimit 10 105 106).
Definition scenarioF_broker : BrokerBack :=
  init (Qz 10000) true false None (stock_scheme 0).

(** ** Close orders *)

(** When a Close order is matched: the feed has advanced since the order was
    placed and the bar's time is past the end of the session, or right at it
    with [eosbar] set. *)
Definition session_ended (feed : Feed) (self : BrokerBack) (order : Order.t)
  : bool :=
  let d := feed (Order.data order) in
  bool_decide (Order.plen order < Data.len d)%nat
  && (Qcgtb (Data.datetime d 0) (Order.dteos order)
      || (p_eosbar self && Qceqb (Data.datetime d 0) (Order.dteos order))).

(** The decision was deferred one bar: a close was annotated on an earlier
    bar and the current bar is already past the end of the session. *)
Definition deferred (feed : Feed) (order : Order.t) : bool :=
  truthy_opt (Order.pannotated order)
  && negb (Qceqb (Data.datetime (feed (Order.data order)) 0)
             (Order.dteos order)).

(** A Close order whose decision was deferred: the previous bar (time 1000,
    the end of the session) closed at 101, which was annotated; the current
    bar has time 1001 and closes at 102. *)
Definition deferred_feed : Feed := fun _ => bar 1001 100 105 97 102.
Definition deferred_order : Order.t :=
  Order.set_pannotated (Some (Qz 101))
    (Order.accept (new_order 1 true Order.Close 10 100 0)).
Definition deferred_broker : BrokerBack :=
  init (Qz 10000) true false None (stock_scheme 0).

(** ** Portfolio value *)





(** ** Queue exclusivity *)






(** ** Further operations of the broker *)

Definition with_comminfo (m : gmap string CommInfo.t) (b : BrokerBack)
  : BrokerBack :=
  mkBroker (p_checksubmit b) (p_eosbar b) (p_filler b) (p_commission b)
    m (startingcash b) (cash b) (orders b) (pending b) (positions b)
    (notifs b) (submitted b).

Definition with_commission (c : CommInfo.t) (b : BrokerBack) : BrokerBack :=
  mkBroker (p_checksubmit b) (p_eosbar b) (p_filler b) c
    (comminfo b) (startingcash b) (cash b) (orders b) (pending b)
    (positions b) (notifs b) (submitted b).

(** [addcommissioninfo(comminfo, name=None)]: [self.comminfo[name] =
    comminfo]; the entry under [None] is the field [p_commission]. *)
Definition addcommissioninfo (self : BrokerBack) (ci : CommInfo.t)
    (name : option string) : BrokerBack :=
  match name with
  | Some n => with_comminfo (<[n := ci]> (comminfo self)) self
  | None => with_commission ci self
  end.

(** [set_cash]: [self.startingcash = self.cash = self.p.cash = cash].  The
    parameter [p.cash] is only ever assigned together with [startingcash],
    which stands for both. *)
Definition set_cash (self : BrokerBack) (c : Qc) : BrokerBack :=
  mkBroker (p_checksubmit self) (p_eosbar self) (p_filler self)
    (p_commission self) (comminfo self) c c (orders self) (pending self)
    (positions self) (notifs self) (submitted self).

(** [start()]: [BrokerBack.init] run again on the object.  The commission
    entries stay ([None] is in [self.comminfo] since the constructor), the
    cash goes back to [p.cash] and the books are emptied. *)
Definition start (self : BrokerBack) : BrokerBack :=
  mkBroker (p_checksubmit self) (p_eosbar self) (p_filler self)
    (p_commission self) (comminfo self) (startingcash self)
    (startingcash self) [] [] ∅ [] [].

(** [orderstatus(order)]: [self.orders.index(order)] is the position of the
    order in the list, an [int]; when the order is found the attribute access
    [o.status] on that [int] raises [AttributeError] ([None] here), when it is
    not found ([ValueError]) the order's own status is returned. *)
Definition orderstatus (self : BrokerBack) (order : Order.t)
  : option Order.Status :=
  if bool_decide (Order.ref order ∈ orders self) then None
  else Some (Order.status order).

(** Taking [n] notifications in a row, as the owner of the broker does
    between bars. *)
Fixpoint get_notifications (n : nat) (self : BrokerBack)
  : list (option Order.t) * BrokerBack :=
  match n with
  | O => ([], self)
  | S n' =>
      let r := get_notification self in
      let rest := get_notifications n' r.2 in
      (r.1 :: rest.1, rest.2)
  end.

(** ** What no operation changes, and what only grows *)

(** The configuration: parameters, commission schemes and starting cash. *)
Definition config (self : BrokerBack) :=
  (p_checksubmit self, p_eosbar self, p_filler self, p_commission self,
   comminfo self, startingcash self).

(** [b] is [a] after some processing: same configuration, and the
    notification queue and the order register of [a] are prefixes of those
    of [b]. *)
Definition extends (a b : BrokerBack) : Prop :=
  config b = config a
  /\ notifs a `prefix_of` notifs b
  /\ orders a `prefix_of` orders b.

(** ** The matching rules as decisions *)

(** The fills an order received between two of its values. *)
Definition new_fills (o o' : Order.t) : list Order.ExecBit :=
  drop (length (Order.executed_bits o)) (Order.executed_bits o').


(** The price a Limit rule executes at, if it does. *)
Definition limit_price (isbuy : bool) (popen phigh plow plimit : Qc)
  : option Qc :=
  if isbuy then
    if Qcgeb plimit popen then Some popen
    else if Qcgeb plimit plow then Some plimit else None
  else
    if Qcleb plimit popen then Some popen
    else if Qcleb plimit phigh then Some plimit else None.

(** The price a Stop rule executes at, if it does. *)
Definition stop_price (isbuy : bool) (popen phigh plow pcreated : Qc)
  : option Qc :=
  if isbuy then
    if Qcgeb popen pcreated then Some popen
    else if Qcgeb phigh pcreated then Some pcreated else None
  else
    if Qcleb popen pcreated then Some popen
    else if Qcleb plow pcreated then Some pcreated else None.

(** Whether an un-triggered StopLimit order triggers on the bar, and the
    price it executes at, if it does. *)
Definition stoplimit_decision (isbuy : bool)
    (popen phigh plow pclose pcreated plimit : Qc) : bool * option Qc :=
  if isbuy then
    if Qcgeb popen pcreated then
      (true, if Qcgeb plimit popen then Some popen
             else if Qcgeb plimit plow then Some plimit else None)
    else if Qcgeb phigh pcreated then
      (true, if Qcgtb popen pclose then
               if Qcgeb plimit pcreated then Some pcreated
               else if Qcgeb plimit pclose then Some plimit else None
             else if Qcgeb plimit pcreated then Some pcreated else None)
    else (false, None)
  else
    if Qcleb popen pcreated then
      (true, if Qcleb plimit popen then Some popen
             else if Qcleb plimit phigh then Some plimit else None)
    else if Qcleb plow pcreated then
      (true, if Qcleb popen pclose then
               if Qcleb plimit pcreated then Some pcreated
               else if Qcleb plimit pclose then Some plimit else None
             else if Qcleb plimit pcreated then Some pcreated else None)
    else (false, None).

(** The decision of [_try_exec] on an order: the order with its flag or
    annotation updated, and the price of the execution, if there is one. *)
Definition matching (feed : Feed) (self : BrokerBack) (order : Order.t)
  : Order.t * option Qc :=
  let data := feed (Order.data order) in
  let popen := py_or (Data.tick_open data) (Data.open data) in
  let phigh := py_or (Data.tick_high data) (Data.high data) in
  let plow := py_or (Data.tick_low data) (Data.low data) in
  let pclose := py_or (Data.tick_close data) (Data.close data) in
  let pcreated := Order.created_price order in
  let plimit := Order.created_pricelimit order in
  match Order.exectype order with
  | Order.Market => (order, Some popen)
  | Order.Close =>
      if session_ended feed self order then
        (order, Some (if deferred feed order
                      then default pclose (Order.pannotated order)
                      else pclose))
      else (Order.set_pannotated (Some pclose) order, None)
  | Order.Limit =>
      (order, limit_price (Order.isbuy order) popen phigh plow pcreated)
  | Order.Stop =>
      (order, stop_price (Order.isbuy order) popen phigh plow pcreated)
  | Order.StopLimit =>
      if Order.triggered order then
        (order, limit_price (Order.isbuy order) popen phigh plow plimit)
      else
        let d := stoplimit_decision (Order.isbuy order) popen phigh plow
                   pclose pcreated plimit in
        (if d.1 then Order.set_triggered true order else order, d.2)
  end.

From Stdlib Require Import Lqa.


(** ** Buy and sell rules as mirror images *)

(** A sell StopLimit with trigger 100 and limit 101 on a bar that opens and
    closes at 102 with low 99: it fills at 101.  Its mirror image, a buy with
    trigger -100 and limit -101 on the bar reflected around zero, does not
    fill. *)
Definition doji_sell : bool * option Qc :=
  stoplimit_decision false (Qz 102) (Qz 103) (Qz 99) (Qz 102) (Qz 100)
    (Qz 101).
Definition doji_buy : bool * option Qc :=
  stoplimit_decision true (- Qz 102) (- Qz 99) (- Qz 103) (- Qz 102)
    (- Qz 100) (- Qz 101).

(** ** Close orders across the end of the session *)



(** ** Executions that execute nothing *)

(** A volume filler that has nothing to give. *)
Definition empty_filler : Filler := fun _ _ _ _ => 0.
Definition empty_broker : BrokerBack :=
  init (Qz 10000) true false (Some empty_filler) (stock_scheme 0).
Definition empty_order : Order.t :=
  Order.accept (new_order 1 true Order.Market 10 100 0).

(** ** Fills that only close *)

(** A long position of 10 units at 100 held with no cash at all, and the
    market sell of 10 that flattens it. *)
Definition flatten_order : Order.t :=
  Order.accept (new_order 1 false Order.Market 10 100 0).
Definition flatten_broker : BrokerBack :=
  with_positions {[ 0%nat := Position.mk (Qz 10) (Qz 100) (Qz 100) ]}
    (init 0 true false None (stock_scheme 0)).

(** ** A broker with two pending orders *)

Definition queue_first : Order.t :=
  Order.accept (new_order 1 true Order.Limit 10 95 0).
Definition queue_second : Order.t :=
  Order.accept (new_order 2 false Order.Limit 10 120 0).
Definition queue_broker : BrokerBack :=
  with_pending [queue_first; queue_second] scenarioF_broker.

(** * Properties *)

(** ** Basic facts about the state accessors *)

Lemma truthy_0 : truthy 0 = false.
Proof. reflexivity. Qed.

Lemma truthy_true x : truthy x = true <-> x <> 0.
Proof. unfold truthy. apply bool_decide_eq_true. Qed.

Lemma truthy_false x : truthy x = false <-> x = 0.
Proof.
  unfold truthy. rewrite bool_decide_eq_false.
  destruct (decide (x = 0)); tauto.
Qed.

Lemma Qcltb_true x y : Qcltb x y = true <-> x < y.
Proof. unfold Qcltb. apply bool_decide_eq_true. Qed.

Lemma Qcltb_false x y : Qcltb x y = false <-> y ≤ x.
Proof.
  unfold Qcltb. rewrite bool_decide_eq_false. symmetry. apply Qcle_ngt.
Qed.

Lemma Qcleb_true x y : Qcleb x y = true <-> x ≤ y.
Proof. unfold Qcleb. apply bool_decide_eq_true. Qed.

Lemma Qcleb_false x y : Qcleb x y = false <-> y < x.
Proof.
  unfold Qcleb. rewrite bool_decide_eq_false. symmetry. apply Qclt_nge.
Qed.

Lemma positions_getitem_value self d :
  (positions_getitem self d).1 = position_of self d.
Proof.
  unfold positions_getitem, position_of.
  destruct (positions self !! d); reflexivity.
Qed.

Lemma positions_getitem_cash self d :
  cash (positions_getitem self d).2 = cash self.
Proof.
  unfold positions_getitem. destruct (positions self !! d); reflexivity.
Qed.

Lemma positions_getitem_lookup self d d' :
  position_of (positions_getitem self d).2 d' = position_of self d'.
Proof.
  unfold positions_getitem, position_of.
  destruct (positions self !! d) eqn:E; simpl; [reflexivity|].
  destruct (decide (d = d')) as [->|Hne].
  - rewrite lookup_insert_eq, E. reflexivity.
  - rewrite lookup_insert_ne by assumption. reflexivity.
Qed.

Lemma positions_getitem_comminfo feed self d d' :
  getcommissioninfo feed (positions_getitem self d).2 d'
  = getcommissioninfo feed self d'.
Proof.
  unfold positions_getitem, getcommissioninfo.
  destruct (positions self !! d); reflexivity.
Qed.

(** ** Cash conservation of a real execution *)

(** C1. Cash conservation: after a real execution [_execute(order, ago,
    price)] the ledger cash equals the cash before, minus the opened leg's
    cost and commission, plus the closed leg's returned value, minus its
    commission, plus the realized profit and loss times the stock-like flag,
    plus the cash adjustments of the closed contracts and of the re-based
    pre-existing exposure, and nothing else.  The terms are those of
    [legs_of]: a leg that is absent, or an open leg that is voided, counts
    for zero. *)
Theorem execute_cash_conservation (feed : Feed) (self : BrokerBack)
    (order : Order.t) (ago : Z) (price : Qc) :
  let ci := getcommissioninfo feed self (Order.data order) in
  let pos := position_of self (Order.data order) in
  let l := legs_of ci pos (cash self)
             (fill_size feed self order ago price) price in
  cash (res_self (_execute feed self order (RealExec ago price)))
  = cash self - openCost l - openCommission l
    + closeValue l - closeCommission l
    + realizedPnL l * CommInfo.stockflag ci
    + (adjustClosed l + adjustRebase l).
Proof.
  intros ci pos l.
  assert (Hsize :
    match p_filler self with
    | Some filler =>
        if Order.isbuy order then filler feed order price ago
        else - filler feed order price ago
    | None => Order.executed_remsize order
    end = fill_size feed self order ago price).
  { unfold fill_size. destruct (p_filler self); reflexivity. }
  unfold _execute. cbn zeta. cbn match. rewrite !Hsize.
  rewrite !positions_getitem_value, !positions_getitem_cash.
  fold ci. fold pos.
  subst l. unfold legs_of. cbn [closeValue closeCommission realizedPnL
    adjustClosed openedSize openCost openCommission adjustRebase].
  set (u := Position.pseudoupdate pos (fill_size feed self order ago price) price).
  cbn [is_real].
  set (cv := CommInfo.getoperationcost ci (tup_closed u) (Position.price pos)).
  set (cc := CommInfo.getcommission ci (tup_closed u) price).
  set (pnl := CommInfo.profitandloss ci (- tup_closed u) (Position.price pos) price).
  set (ac := CommInfo.cashadjust ci (- tup_closed u) (Position.adjbase pos) price).
  set (ov := CommInfo.getoperationcost ci (tup_opened u) price).
  set (oc := CommInfo.getcommission ci (tup_opened u) price).
  destruct (truthy (tup_closed u)) eqn:Hc; cbn iota.
  - replace (cash self + cv + pnl * CommInfo.stockflag ci - cc + ac - ov - oc)
      with (cash self + (cv + pnl * CommInfo.stockflag ci) - cc + ac - ov - oc)
      by ring.
    destruct (truthy (tup_opened u)) eqn:Ho; cbn iota;
      [ destruct (Qcltb _ 0) eqn:Hneg; cbn iota | ];
      rewrite ?truthy_0; cbn [andb negb];
      repeat match goal with
        | |- context [if ?c then _ else _] => destruct c eqn:?
        end;
      cbn [cash res_self with_cash notify with_notifs with_positions];
      rewrite ?positions_getitem_cash;
      first [ring | congruence].
  - replace (cash self + 0 + 0 * CommInfo.stockflag ci - 0 + 0 - ov - oc)
      with (cash self - ov - oc) by ring.
    destruct (truthy (tup_opened u)) eqn:Ho; cbn iota;
      [ destruct (Qcltb _ 0) eqn:Hneg; cbn iota | ];
      rewrite ?truthy_0; cbn [andb negb];
      repeat match goal with
        | |- context [if ?c then _ else _] => destruct c eqn:?
        end;
      cbn [cash res_self with_cash notify with_notifs with_positions];
      rewrite ?positions_getitem_cash;
      first [ring | congruence].
Qed.

(** The legs are the quantities the order's execution record receives:
    whenever something is executed, the fill appended to the order carries
    the closed and opened sizes, values and commissions of [legs_of]. *)
Lemma execute_records_legs (feed : Feed) (self : BrokerBack)
    (order : Order.t) (ago : Z) (price : Qc) :
  let ci := getcommissioninfo feed self (Order.data order) in
  let pos := position_of self (Order.data order) in
  let size := fill_size feed self order ago price in
  let l := legs_of ci pos (cash self) size price in
  let closed := tup_closed (Position.pseudoupdate pos size price) in
  let r := _execute feed self order (RealExec ago price) in
  closed + openedSize l <> 0 ->
  exists bit,
    Order.executed_bits (res_order r) = Order.executed_bits order ++ [bit]
    /\ Order.size bit = closed + openedSize l
    /\ Order.price bit = price
    /\ Order.closed bit = closed
    /\ Order.closedvalue bit = closeValue l
    /\ Order.closedcomm bit = closeCommission l
    /\ Order.opened bit = openedSize l
    /\ Order.openedvalue bit = openCost l
    /\ Order.openedcomm bit = openCommission l.
Proof.
  intros ci pos size l closed r.
  assert (Hsize :
    match p_filler self with
    | Some filler =>
        if Order.isbuy order then filler feed order price ago
        else - filler feed order price ago
    | None => Order.executed_remsize order
    end = size).
  { unfold size, fill_size. destruct (p_filler self); reflexivity. }
  subst r closed. unfold _execute. cbn zeta. cbn match. rewrite !Hsize.
  rewrite !positions_getitem_value, !positions_getitem_cash.
  fold ci. fold pos.
  subst l. unfold legs_of. cbn [closeValue closeCommission realizedPnL
    adjustClosed openedSize openCost openCommission adjustRebase].
  set (u := Position.pseudoupdate pos size price).
  cbn [is_real].
  set (cv := CommInfo.getoperationcost ci (tup_closed u) (Position.price pos)).
  set (cc := CommInfo.getcommission ci (tup_closed u) price).
  set (pnl := CommInfo.profitandloss ci (- tup_closed u) (Position.price pos)
                price).
  set (ac := CommInfo.cashadjust ci (- tup_closed u) (Position.adjbase pos)
               price).
  set (ov := CommInfo.getoperationcost ci (tup_opened u) price).
  set (oc := CommInfo.getcommission ci (tup_opened u) price).
  destruct (truthy (tup_closed u)) eqn:Hc; cbn iota.
  - replace (cash self + cv + pnl * CommInfo.stockflag ci - cc + ac - ov - oc)
      with (cash self + (cv + pnl * CommInfo.stockflag ci) - cc + ac - ov - oc)
      by ring.
    destruct (truthy (tup_opened u)) eqn:Ho; cbn iota;
      [ destruct (Qcltb _ 0) eqn:Hneg; cbn iota
      | pose proof Ho as Hz; apply truthy_false in Hz; rewrite ?Hz ];
      cbn [andb negb]; intros Hne; apply truthy_true in Hne;
      rewrite ?Hne; cbn iota;
      rewrite ?truthy_0, ?Ho; cbn [andb negb]; cbn iota;
      cbn [res_order]; eexists;
      (split; [reflexivity|]);
      cbn [Order.size Order.price Order.closed Order.closedvalue
           Order.closedcomm Order.opened Order.openedvalue Order.openedcomm];
      repeat split; reflexivity.
  - replace (cash self + 0 + 0 * CommInfo.stockflag ci - 0 + 0 - ov - oc)
      with (cash self - ov - oc) by ring.
    destruct (truthy (tup_opened u)) eqn:Ho; cbn iota;
      [ destruct (Qcltb _ 0) eqn:Hneg; cbn iota
      | pose proof Ho as Hz; apply truthy_false in Hz; rewrite ?Hz ];
      cbn [andb negb]; intros Hne; apply truthy_true in Hne;
      rewrite ?Hne; cbn iota;
      rewrite ?truthy_0, ?Ho; cbn [andb negb]; cbn iota;
      cbn [res_order]; eexists;
      (split; [reflexivity|]);
      cbn [Order.size Order.price Order.closed Order.closedvalue
           Order.closedcomm Order.opened Order.openedvalue Order.openedcomm];
      repeat split; reflexivity.
Qed.

(** ** Voiding of the open leg at fill time *)

Lemma positions_getitem_notifs self d :
  notifs (positions_getitem self d).2 = notifs self.
Proof.
  unfold positions_getitem. destruct (positions self !! d); reflexivity.
Qed.

Lemma execute_bits o b :
  Order.executed_bits (Order.execute o b) = Order.executed_bits o ++ [b].
Proof. reflexivity. Qed.

Lemma position_of_insert self d p st :
  positions st = <[d := p]> (positions self) -> position_of st d = p.
Proof.
  intros E. unfold position_of. rewrite E, lookup_insert_eq. reflexivity.
Qed.

(** C2. Open-leg voiding at fill time: when the opening leg's cost plus
    commission would drive the cash below zero, the opened size, value and
    commission are recorded as zero, the order is flagged Margin and notified
    last, and the close leg of the same execution stands: the ledger cash is
    exactly the cash after the close leg and the position moved by the closed
    size only. *)
Theorem execute_open_leg_voided (feed : Feed) (self : BrokerBack)
    (order : Order.t) (ago : Z) (price : Qc) :
  let d := Order.data order in
  let ci := getcommissioninfo feed self d in
  let pos := position_of self d in
  let size := fill_size feed self order ago price in
  let u := Position.pseudoupdate pos size price in
  let closed := tup_closed u in
  let opened := tup_opened u in
  let kept := cash_after_close ci pos (cash self) size price in
  opened <> 0 ->
  kept - CommInfo.getoperationcost ci opened price
       - CommInfo.getcommission ci opened price < 0 ->
  let r := _execute feed self order (RealExec ago price) in
  cash (res_self r) = kept
  /\ Order.status (res_order r) = Order.Margin
  /\ last (notifs (res_self r)) = Some (res_order r)
  /\ (closed <> 0 ->
      exists bit,
        Order.executed_bits (res_order r) = Order.executed_bits order ++ [bit]
        /\ notifs (res_self r)
           = notifs self ++ [Order.execute order bit; res_order r]
        /\ Order.size bit = closed /\ Order.closed bit = closed
        /\ Order.opened bit = 0 /\ Order.openedvalue bit = 0
        /\ Order.openedcomm bit = 0
        /\ position_of (res_self r) d = (Position.update pos closed price).1)
  /\ (closed = 0 ->
      Order.executed_bits (res_order r) = Order.executed_bits order
      /\ Order.executed_remsize (res_order r) = Order.executed_remsize order
      /\ notifs (res_self r) = notifs self ++ [res_order r]
      /\ position_of (res_self r) d = pos).
Proof.
  intros d ci pos size u closed opened kept Hopen Hneg r.
  assert (Hsize :
    match p_filler self with
    | Some filler =>
        if Order.isbuy order then filler feed order price ago
        else - filler feed order price ago
    | None => Order.executed_remsize order
    end = size).
  { unfold size, fill_size. destruct (p_filler self); reflexivity. }
  apply truthy_true in Hopen.
  subst r. unfold _execute. cbn zeta. cbn match. rewrite !Hsize.
  rewrite !positions_getitem_value. rewrite !positions_getitem_cash.
  fold d. fold ci. fold pos. fold u. fold opened. fold closed.
  cbn [is_real].
  unfold kept, cash_after_close, legs_of in Hneg |- *.
  cbn [closeValue closeCommission realizedPnL adjustClosed] in Hneg |- *.
  fold u in Hneg |- *. fold closed in Hneg |- *.
  rewrite Hopen. cbn iota.
  destruct (truthy closed) eqn:Hc; cbn iota.
  - set (cv := CommInfo.getoperationcost ci closed (Position.price pos)) in *.
    set (cc := CommInfo.getcommission ci closed price) in *.
    set (pnl := CommInfo.profitandloss ci (- closed) (Position.price pos) price)
      in *.
    set (ac := CommInfo.cashadjust ci (- closed) (Position.adjbase pos) price)
      in *.
    replace (cash self + (cv + pnl * CommInfo.stockflag ci) - cc + ac)
      with (cash self + cv + pnl * CommInfo.stockflag ci - cc + ac) by ring.
    apply Qcltb_true in Hneg. rewrite Hneg. cbn iota.
    rewrite truthy_0. cbn [andb negb]. rewrite Qcplus_0_r, Hc. cbn iota.
    cbn [res_self res_order cash with_positions with_cash notify with_notifs
         notifs Order.clone].
    split; [reflexivity|]. split; [reflexivity|].
    split; [rewrite !last_snoc; reflexivity|].
    split.
    + intros Hne. eexists.
      split.
      { cbn [Order.margin Order.set_status Order.executed_bits].
        apply execute_bits. }
      split.
      { rewrite positions_getitem_notifs, <- !app_assoc. reflexivity. }
      cbn [Order.size Order.closed Order.opened Order.openedvalue
           Order.openedcomm].
      repeat (split; [reflexivity|]).
      eapply position_of_insert. reflexivity.
    + intros E. apply truthy_true in Hc. contradiction.
  - replace (cash self + 0 + 0 * CommInfo.stockflag ci - 0 + 0)
      with (cash self) in Hneg |- * by ring.
    apply Qcltb_true in Hneg. rewrite Hneg. cbn iota.
    rewrite truthy_0. cbn [andb negb].
    apply truthy_false in Hc. rewrite Hc, Qcplus_0_r, truthy_0. cbn iota.
    cbn [res_self res_order cash with_positions with_cash notify with_notifs
         notifs Order.clone].
    rewrite positions_getitem_cash.
    split; [reflexivity|]. split; [reflexivity|].
    split; [rewrite last_snoc; reflexivity|].
    split; [intros E; contradiction E; reflexivity|].
    intros _.
    cbn [Order.margin Order.set_status Order.executed_bits
         Order.executed_remsize].
    repeat (split; [reflexivity|]).
    split; [rewrite positions_getitem_notifs; reflexivity|].
    eapply position_of_insert. reflexivity.
Qed.

Lemma execute_open_leg_voided_witness :
  let r := _execute voiding_feed voiding_broker voiding_order
             (RealExec 0 (Qz 100)) in
  cash (res_self r) = Qz 1500
  /\ Order.status (res_order r) = Order.Margin
  /\ last (notifs (res_self r)) = Some (res_order r).
Proof.
  pose proof (execute_open_leg_voided voiding_feed voiding_broker
                voiding_order 0 (Qz 100)) as H.
  cbv zeta in H.
  assert (H1 : tup_opened
                 (Position.pseudoupdate (position_of voiding_broker 0%nat)
                    (fill_size voiding_feed voiding_broker voiding_order 0
                       (Qz 100)) (Qz 100)) <> 0).
  { apply truthy_true. vm_compute. reflexivity. }
  specialize (H H1). clear H1.
  assert (H2 : cash_after_close
                 (getcommissioninfo voiding_feed voiding_broker 0%nat)
                 (position_of voiding_broker 0%nat) (cash voiding_broker)
                 (fill_size voiding_feed voiding_broker voiding_order 0
                    (Qz 100)) (Qz 100)
               - CommInfo.getoperationcost
                   (getcommissioninfo voiding_feed voiding_broker 0%nat)
                   (tup_opened
                      (Position.pseudoupdate (position_of voiding_broker 0%nat)
                         (fill_size voiding_feed voiding_broker voiding_order 0
                            (Qz 100)) (Qz 100))) (Qz 100)
               - CommInfo.getcommission
                   (getcommissioninfo voiding_feed voiding_broker 0%nat)
                   (tup_opened
                      (Position.pseudoupdate (position_of voiding_broker 0%nat)
                         (fill_size voiding_feed voiding_broker voiding_order 0
                            (Qz 100)) (Qz 100))) (Qz 100) < 0).
  { vm_compute. reflexivity. }
  specialize (H H2). clear H2.
  destruct H as (Hcash & Hst & Hlast & _).
  cbv zeta. split; [|split; assumption].
  rewrite Hcash. apply Qc_is_canon. vm_compute. reflexivity.
Defined.

(** ** Admission control *)

(** A pseudo-execution touches neither the broker nor the order. *)
Lemma execute_pseudo_pure feed self order c p :
  let r := _execute feed self order (PseudoExec c p) in
  res_self r = self /\ res_order r = order /\ is_Some (res_return r).
Proof.
  unfold _execute. cbn zeta. cbn match. cbn [is_real].
  destruct (p_filler self); break_ifs; cbn; eauto.
Qed.

(** It reads the broker only through the commission scheme. *)
Lemma pseudo_frame feed self self' order c p :
  getcommissioninfo feed self (Order.data order)
  = getcommissioninfo feed self' (Order.data order) ->
  pseudo feed self order c p = pseudo feed self' order c p.
Proof.
  intros E. unfold pseudo, _execute. cbn zeta. cbn match. cbn [is_real].
  rewrite E.
  destruct (p_filler self), (p_filler self'); break_ifs; reflexivity.
Qed.


Lemma same_ledger_trans feed a b c :
  same_ledger feed a b -> same_ledger feed b c -> same_ledger feed a c.
Proof.
  intros (H1 & H2 & H3) (K1 & K2 & K3). repeat split.
  - congruence.
  - intros d. rewrite H2. apply K2.
  - intros d. rewrite H3. apply K3.
Qed.

Lemma admission_frame feed a b queue :
  same_ledger feed a b ->
  forall c scratch,
    admission feed a queue c scratch = admission feed b queue c scratch.
Proof.
  intros (_ & Hp & Hc). induction queue as [|o rest IH]; intros c scratch.
  - reflexivity.
  - cbn [admission]. cbn zeta. rewrite Hp.
    rewrite (pseudo_frame feed a b) by apply Hc.
    rewrite IH. reflexivity.
Qed.

Lemma same_ledger_getitem feed self d :
  same_ledger feed (positions_getitem self d).2 self.
Proof.
  repeat split.
  - apply positions_getitem_cash.
  - intros d'. apply positions_getitem_lookup.
  - intros d'. apply positions_getitem_comminfo.
Qed.

Lemma setdefault_value m k v : (setdefault m k v).1 = default v (m !! k).
Proof. unfold setdefault. destruct (m !! k); reflexivity. Qed.

Lemma setdefault_insert m k v w :
  <[k := w]> (setdefault m k v).2 = <[k := w]> m.
Proof.
  unfold setdefault. destruct (m !! k); cbn [snd]; [reflexivity|].
  apply insert_insert_eq.
Qed.

(** What one admission pass does to the broker. *)
Lemma check_submitted_loop_spec feed queue :
  forall c scratch self,
    let tr := admission feed self queue c scratch in
    let self' := check_submitted_loop feed queue c scratch self in
    same_ledger feed self' self
    /\ submitted self' = match queue with [] => submitted self | _ => [] end
    /\ pending self' = pending self ++ omap admitted tr
    /\ notifs self' = notifs self ++ map verdict tr
    /\ orders self' = orders self
    /\ p_checksubmit self' = p_checksubmit self.
Proof.
  induction queue as [|o rest IH]; intros c scratch self.
  - cbn. rewrite !app_nil_r. repeat split.
  - cbn zeta. cbn [check_submitted_loop admission omap map].
    set (self1 := (positions_getitem (with_submitted rest self)
                     (Order.data o)).2).
    rewrite positions_getitem_value, setdefault_value, setdefault_insert.
    unfold Position.clone.
    assert (Hs1 : same_ledger feed self1 self).
    { eapply same_ledger_trans; [apply same_ledger_getitem|].
      repeat split. }
    assert (Hq1 : pending self1 = pending self
                  /\ notifs self1 = notifs self
                  /\ orders self1 = orders self
                  /\ p_checksubmit self1 = p_checksubmit self
                  /\ submitted self1 = rest).
    { unfold self1, positions_getitem.
      destruct (positions (with_submitted rest self) !! Order.data o);
        repeat split. }
    destruct Hq1 as (Hq1 & Hq2 & Hq3 & Hq4 & Hq5).
    destruct (execute_pseudo_pure feed self1 o c
                (default (position_of (with_submitted rest self) (Order.data o))
                   (scratch !! Order.data o))) as (Es & Eo & _).
    cbn zeta in Es, Eo. rewrite Es, Eo.
    change (position_of (with_submitted rest self) (Order.data o))
      with (position_of self (Order.data o)).
    set (p := default (position_of self (Order.data o))
                (scratch !! Order.data o)).
    assert (E1 : default 0 (res_return (_execute feed self1 o (PseudoExec c p)))
                 = (pseudo feed self1 o c p).1) by reflexivity.
    assert (E2 : res_position (_execute feed self1 o (PseudoExec c p))
                 = (pseudo feed self1 o c p).2) by reflexivity.
    rewrite E1, E2. clear E1 E2.
    rewrite (pseudo_frame feed self1 self) by apply Hs1.
    set (r := pseudo feed self o c p).
    assert (Hv : Qcgeb r.1 0 = true ->
                 verdict (o, r.1) = Order.accept (Order.set_pannotated None o)
                 /\ admitted (o, r.1)
                    = Some (Order.accept (Order.set_pannotated None o))).
    { intros E. unfold admitted, verdict. cbn [fst snd]. rewrite E. auto. }
    assert (Hw : Qcgeb r.1 0 = false ->
                 verdict (o, r.1) = Order.margin o
                 /\ admitted (o, r.1) = None).
    { intros E. unfold admitted, verdict. cbn [fst snd]. rewrite E. auto. }
    change (list_omap _ _ admitted
              ((o, r.1) :: admission feed self rest r.1
                             (<[Order.data o := r.2]> scratch)))
      with (match admitted (o, r.1) with
            | Some y => y :: omap admitted (admission feed self rest r.1
                                             (<[Order.data o := r.2]> scratch))
            | None => omap admitted (admission feed self rest r.1
                                       (<[Order.data o := r.2]> scratch))
            end).
    destruct (Qcgeb r.1 0) eqn:Hge.
    + destruct (Hv eq_refl) as [-> ->]. clear Hv Hw.
      specialize (IH r.1 (<[Order.data o := r.2]> scratch)
                    (submit_accept self1 o).1).
      cbn zeta in IH.
      assert (Hs2 : same_ledger feed (submit_accept self1 o).1 self).
      { eapply same_ledger_trans; [|exact Hs1]. repeat split. }
      rewrite (admission_frame feed _ self) in IH by exact Hs2.
      destruct IH as (I1 & I2 & I3 & I4 & I5 & I6).
      split; [eapply same_ledger_trans; eassumption|].
      split; [rewrite I2; destruct rest; [exact Hq5|reflexivity]|].
      split; [rewrite I3; cbn; rewrite Hq1, <- app_assoc; reflexivity|].
      split; [rewrite I4; cbn; rewrite Hq2, <- app_assoc; reflexivity|].
      split; [rewrite I5; cbn; exact Hq3|].
      rewrite I6. cbn. exact Hq4.
    + destruct (Hw eq_refl) as [-> ->]. clear Hv Hw.
      specialize (IH r.1 (<[Order.data o := r.2]> scratch)
                    (notify self1 (Order.margin o))).
      cbn zeta in IH.
      assert (Hs2 : same_ledger feed (notify self1 (Order.margin o)) self).
      { eapply same_ledger_trans; [|exact Hs1]. repeat split. }
      rewrite (admission_frame feed _ self) in IH by exact Hs2.
      destruct IH as (I1 & I2 & I3 & I4 & I5 & I6).
      split; [eapply same_ledger_trans; eassumption|].
      split; [rewrite I2; destruct rest; [exact Hq5|reflexivity]|].
      split; [rewrite I3; cbn; rewrite Hq1; reflexivity|].
      split; [rewrite I4; cbn; rewrite Hq2, <- app_assoc; reflexivity|].
      split; [rewrite I5; cbn; exact Hq3|].
      rewrite I6. cbn. exact Hq4.
Qed.

Lemma verdict_ref oc : Order.ref (verdict oc) = Order.ref oc.1.
Proof. unfold verdict. destruct (Qcgeb oc.2 0); reflexivity. Qed.

Lemma verdict_status oc :
  Order.status (verdict oc)
  = if Qcgeb oc.2 0 then Order.Accepted else Order.Margin.
Proof. unfold verdict. destruct (Qcgeb oc.2 0); reflexivity. Qed.

Lemma admission_orders feed self queue :
  forall c scratch, (admission feed self queue c scratch).*1 = queue.
Proof.
  induction queue as [|o rest IH]; intros c scratch; [reflexivity|].
  cbn [admission]. cbn zeta. cbn [fmap list_fmap fst]. f_equal. apply IH.
Qed.

Lemma check_submitted_spec feed self :
  let tr := admission feed self (submitted self) (cash self) ∅ in
  let self' := check_submitted feed self in
  same_ledger feed self' self
  /\ submitted self' = []
  /\ pending self' = pending self ++ omap admitted tr
  /\ notifs self' = notifs self ++ map verdict tr.
Proof.
  intros tr self'.
  destruct (check_submitted_loop_spec feed (submitted self) (cash self) ∅ self)
    as (H1 & H2 & H3 & H4 & _).
  fold tr in H3, H4.
  repeat split; try assumption; try apply H1.
  unfold self', check_submitted. rewrite H2.
  destruct (submitted self); reflexivity.
Qed.

(** C3. Admission rejection: one pass of [check_submitted] pseudo-executes
    every submitted order at its creation price on scratch cash seeded from
    the ledger cash and on clones of the positions.  An order whose
    pseudo-execution leaves the cash negative is notified once with status
    Margin and is not queued; otherwise it is notified once with status
    Accepted and appended to the pending queue.  The ledger cash and every
    position are unchanged and the submitted queue is drained. *)
Theorem check_submitted_admission (feed : Feed) (self : BrokerBack) :
  let tr := admission feed self (submitted self) (cash self) ∅ in
  let self' := check_submitted feed self in
  cash self' = cash self
  /\ (forall d, position_of self' d = position_of self d)
  /\ tr.*1 = submitted self
  /\ notifs self' = notifs self ++ map verdict tr
  /\ Forall (fun oc =>
       Order.ref (verdict oc) = Order.ref oc.1
       /\ (oc.2 < 0 ->
           Order.status (verdict oc) = Order.Margin /\ admitted oc = None)
       /\ (0 ≤ oc.2 ->
           Order.status (verdict oc) = Order.Accepted
           /\ admitted oc = Some (verdict oc))) tr
  /\ pending self' = pending self ++ omap admitted tr
  /\ submitted self' = []
  /\ (forall o rest, submitted self = o :: rest ->
      head tr
      = Some (o, (pseudo feed self o (cash self)
                    (Position.clone (position_of self (Order.data o)))).1)).
Proof.
  intros tr self'.
  destruct (check_submitted_spec feed self) as ((Hc & Hp & _) & Hs & Hq & Hn).
  fold tr in Hq, Hn. fold self' in Hc, Hp, Hs, Hq, Hn.
  split; [exact Hc|]. split; [exact Hp|].
  split; [apply admission_orders|]. split; [exact Hn|].
  split.
  { apply Forall_forall. intros oc _. split; [apply verdict_ref|].
    rewrite verdict_status. unfold admitted, Qcgeb.
    split; intros H.
    - apply Qcleb_false in H. rewrite H. auto.
    - apply Qcleb_true in H. rewrite H. auto. }
  split; [exact Hq|]. split; [exact Hs|].
  intros o rest E. unfold tr. rewrite E. cbn [admission]. cbn zeta.
  rewrite lookup_empty. reflexivity.
Qed.

Example scenarioE_rejected :
  let self' := check_submitted scenarioE_feed scenarioE_broker in
  cash self' = Qz 100
  /\ map Order.status (notifs self') = [Order.Submitted; Order.Margin]
  /\ pending self' = [] /\ submitted self' = []
  /\ position_of self' 0%nat = Position.new.
Proof.
  cbv zeta. split; [apply Qc_is_canon; vm_compute; reflexivity|].
  repeat split; vm_compute; reflexivity.
Qed.

(** C10. Within one admission pass the scratch cash is seeded once from the
    ledger cash and threaded through the submitted orders in queue order,
    whatever the verdict on each: the cash a rejected order leaves, negative
    as it is, is the cash the next order starts from, so a later order's
    verdict depends on the earlier ones of the batch.  The ledger cash is not
    modified by the pass. *)
Theorem check_submitted_threads_cash :
  (forall feed self,
     cash (check_submitted feed self) = cash self
     /\ notifs (check_submitted feed self)
        = notifs self
          ++ map verdict (admission feed self (submitted self) (cash self) ∅))
  /\ (forall feed self o rest c scratch,
        admission feed self (o :: rest) c scratch
        = let r := pseudo feed self o c
                     (default (position_of self (Order.data o))
                        (scratch !! Order.data o)) in
          (o, r.1) :: admission feed self rest r.1
                        (<[Order.data o := r.2]> scratch))
  /\ (let alone := check_submitted scenarioE_feed (batch_broker [batch_second]) in
      let both := check_submitted scenarioE_feed
                    (batch_broker [batch_first; batch_second]) in
      map Order.status (notifs alone) = [Order.Accepted]%list
      /\ map Order.status (notifs both) = [Order.Margin; Order.Margin]
      /\ map Qcanon.this
           (admission scenarioE_feed (batch_broker [batch_first; batch_second])
              [batch_first; batch_second] (Qz 100) ∅).*2
         = [(-400)%Q; (-450)%Q]
      /\ cash both = Qz 100).
Proof.
  split; [|split].
  - intros feed self.
    destruct (check_submitted_spec feed self) as ((Hc & _) & _ & _ & Hn).
    split; assumption.
  - reflexivity.
  - cbv zeta. split; [vm_compute; reflexivity|].
    split; [vm_compute; reflexivity|].
    split; [vm_compute; reflexivity|].
    apply Qc_is_canon. vm_compute. reflexivity.
Qed.

(** ** End-of-bar mark-to-market *)

Lemma settlement_frame feed a b item :
  (forall d, getcommissioninfo feed a d = getcommissioninfo feed b d) ->
  settlement feed a item = settlement feed b item.
Proof. intros H. unfold settlement. rewrite H. reflexivity. Qed.

Lemma cashadjust_item_spec feed self item :
  let s := cashadjust_item feed self item in
  cash s = cash self + settlement feed self item
  /\ (forall d, getcommissioninfo feed s d = getcommissioninfo feed self d)
  /\ positions s
     = (if Position.bool_ item.2
        then <[item.1 := rebased feed item.1 item.2]> (positions self)
        else positions self)
  /\ pending s = pending self /\ notifs s = notifs self
  /\ submitted s = submitted self.
Proof.
  unfold cashadjust_item, settlement, rebased.
  destruct (Position.bool_ item.2); cbn.
  - repeat split.
  - repeat split. ring.
Qed.

Lemma sweep_spec feed (l : list (DataId * Position.t)) :
  NoDup l.*1 ->
  forall self,
    let s := foldl (cashadjust_item feed) self l in
    cash s = cash self + Qcsum (map (settlement feed self) l)
    /\ (forall d, getcommissioninfo feed s d = getcommissioninfo feed self d)
    /\ (forall d pos, (d, pos) ∈ l ->
          positions s !! d
          = if Position.bool_ pos then Some (rebased feed d pos)
            else positions self !! d)
    /\ (forall d, d ∉ l.*1 -> positions s !! d = positions self !! d)
    /\ pending s = pending self /\ notifs s = notifs self
    /\ submitted s = submitted self.
Proof.
  induction l as [|[d0 p0] l IH]; intros Hnd self.
  - cbn. split; [ring|]. repeat split. intros d pos H. inversion H.
  - cbn [fmap list_fmap fst] in Hnd. apply NoDup_cons in Hnd as [Hd0 Hnd].
    cbn zeta. cbn [foldl map Qcsum foldr].
    destruct (cashadjust_item_spec feed self (d0, p0))
      as (C1 & C2 & C3 & C4 & C5 & C6).
    cbn zeta in C1, C2, C3, C4, C5, C6. cbn [fst snd] in C3.
    set (s1 := cashadjust_item feed self (d0, p0)) in *.
    destruct (IH Hnd s1) as (I1 & I2 & I3 & I4 & I5 & I6 & I7).
    cbn zeta in I1, I2, I3, I4, I5, I6, I7.
    split.
    { rewrite I1, C1.
      rewrite (map_ext (settlement feed s1) (settlement feed self))
        by (intros; apply settlement_frame; exact C2).
      fold (Qcsum (map (settlement feed self) l)). ring. }
    split; [intros d; rewrite I2; apply C2|].
    split.
    { intros d pos Hin. apply elem_of_cons in Hin as [E|Hin].
      - inversion E; subst d pos.
        rewrite I4 by exact Hd0. rewrite C3.
        destruct (Position.bool_ p0); [apply lookup_insert_eq|reflexivity].
      - rewrite (I3 _ _ Hin).
        destruct (Position.bool_ pos); [reflexivity|].
        rewrite C3. destruct (Position.bool_ p0); [|reflexivity].
        apply lookup_insert_ne. intros ->. apply Hd0.
        apply list_elem_of_fmap. exists (d, pos). split; [reflexivity|exact Hin]. }
    split.
    { intros d Hnin. cbn [fmap list_fmap fst] in Hnin.
      apply not_elem_of_cons in Hnin as [Hne Hnin].
      rewrite I4 by exact Hnin. rewrite C3.
      destruct (Position.bool_ p0); [|reflexivity].
      apply lookup_insert_ne. intros E'. apply Hne. symmetry. exact E'. }
    repeat split; congruence.
Qed.

(** C4. Mark-to-market sweep: [next] runs the admission check, then the
    matching loop, and then, for every instrument whose position is open,
    adds [cashadjust(size, adjbase, close)] to the cash and sets the
    adjustment base to the close.  A flat position contributes nothing and
    is left as it is; so does a stock-like instrument, whose commission
    scheme adjusts no cash. *)
Theorem next_mark_to_market (feed : Feed) (self : BrokerBack) :
  let matched :=
    next_loop feed
      (length (pending (if p_checksubmit self
                        then check_submitted feed self else self)))
      (if p_checksubmit self then check_submitted feed self else self) in
  let self' := next feed self in
  cash self'
  = cash matched
    + Qcsum (map (settlement feed matched) (map_to_list (positions matched)))
  /\ (forall d, positions self' !! d = rebased feed d <$> positions matched !! d)
  /\ (forall d pos, positions matched !! d = Some pos ->
        (Position.size pos <> 0 ->
         settlement feed matched (d, pos)
         = CommInfo.cashadjust (getcommissioninfo feed matched d)
             (Position.size pos) (Position.adjbase pos) (Data.close (feed d))
         /\ Position.adjbase (position_of self' d) = Data.close (feed d))
        /\ (Position.size pos = 0 ->
            settlement feed matched (d, pos) = 0
            /\ position_of self' d = pos)
        /\ (CommInfo.stocklike (getcommissioninfo feed matched d) = true ->
            CommInfo.settles_futures_only (getcommissioninfo feed matched d) ->
            settlement feed matched (d, pos) = 0))
  /\ pending self' = pending matched /\ notifs self' = notifs matched.
Proof.
  intros matched self'.
  assert (E : self' = foldl (cashadjust_item feed) matched
                        (map_to_list (positions matched))) by reflexivity.
  destruct (sweep_spec feed (map_to_list (positions matched))
              (NoDup_fst_map_to_list _) matched)
    as (S1 & _ & S3 & S4 & S5 & S6 & _).
  cbn zeta in S1, S3, S4, S5, S6. rewrite <- E in S1, S3, S4, S5, S6.
  assert (Hpos : forall d,
            positions self' !! d = rebased feed d <$> positions matched !! d).
  { intros d. destruct (positions matched !! d) as [pos|] eqn:Hd.
    - rewrite (S3 d pos) by (apply elem_of_map_to_list; exact Hd).
      cbn. unfold rebased. destruct (Position.bool_ pos); [reflexivity|exact Hd].
    - rewrite S4; [rewrite Hd; reflexivity|].
      intros Hin. apply list_elem_of_fmap in Hin as [[d' p'] [-> Hin]].
      apply elem_of_map_to_list in Hin. cbn [fst] in Hd.
      rewrite Hin in Hd. discriminate. }
  split; [exact S1|]. split; [exact Hpos|].
  split; [|split; assumption].
  intros d pos Hd.
  assert (Hp : position_of self' d = rebased feed d pos).
  { unfold position_of. rewrite Hpos, Hd. reflexivity. }
  split; [|split].
  - intros Hne. apply truthy_true in Hne.
    rewrite Hp. unfold settlement, rebased, Position.bool_. cbn [fst snd].
    rewrite Hne. split; reflexivity.
  - intros Hz. apply truthy_false in Hz.
    rewrite Hp. unfold settlement, rebased, Position.bool_. cbn [fst snd].
    rewrite Hz. split; reflexivity.
  - intros Hst Hc. unfold settlement. cbn [fst snd].
    destruct (Position.bool_ pos); [apply Hc; exact Hst|reflexivity].
Qed.

(** ** What matching leaves alone *)

Lemma descends_refl o : descends o o.
Proof. repeat split; auto. Qed.

Lemma descends_trans a b c : descends a b -> descends b c -> descends a c.
Proof.
  unfold descends. intros (A1 & A2 & A3 & A4 & A5 & A6 & A7)
    (B1 & B2 & B3 & B4 & B5 & B6 & B7).
  repeat split; try congruence. auto.
Qed.

Lemma descends_set_status s o : descends o (Order.set_status s o).
Proof. repeat split; auto. Qed.

Lemma descends_set_pannotated p o : descends o (Order.set_pannotated p o).
Proof. repeat split; auto. Qed.

Lemma descends_set_triggered o : descends o (Order.set_triggered true o).
Proof. repeat split; auto. Qed.

Lemma descends_execute o b : descends o (Order.execute o b).
Proof.
  unfold Order.execute. destruct (truthy _); repeat split; auto.
Qed.

Lemma descends_expire dt0 o : descends o (Order.expire dt0 o).2.
Proof.
  unfold Order.expire. destruct (Order.valid o); [|apply descends_refl].
  destruct (Qcgtb dt0 q); [apply descends_set_status|apply descends_refl].
Qed.

Lemma positions_getitem_queues self d :
  same_queues (positions_getitem self d).2 self.
Proof.
  unfold positions_getitem. destruct (positions self !! d); repeat split.
Qed.

Lemma execute_at_frame feed self order ago price :
  let r := execute_at feed self order ago price in
  same_queues r.1 self /\ descends order r.2.
Proof.
  unfold execute_at, _execute. cbn zeta. cbn match. cbn [is_real].
  destruct (positions_getitem_queues self (Order.data order)) as (P1 & P2 & P3).
  set (gp := positions_getitem self (Order.data order)) in *.
  generalize dependent gp. intros gp P1 P2 P3.
  repeat (match goal with
          | |- context [if ?c then _ else _] => destruct c
          end; cbn iota);
    cbn [fst snd res_self res_order]; unfold same_queues;
    cbn [pending submitted p_checksubmit with_positions notify with_notifs
         with_cash];
    (split; [auto|]);
    repeat match goal with
      | |- descends ?o ?o => apply descends_refl
      | |- descends _ (Order.execute _ _) => apply descends_execute
      | |- descends _ (Order.margin _) =>
          eapply descends_trans; [|apply descends_set_status]
      end.
Qed.

Lemma same_queues_refl a : same_queues a a.
Proof. repeat split. Qed.

Create HintDb broker.

#[local] Hint Resolve descends_refl descends_set_status
  descends_set_pannotated descends_set_triggered descends_execute
  descends_expire same_queues_refl : broker.

Lemma try_exec_limit_frame feed self order popen phigh plow plimit :
  let r := _try_exec_limit feed self order popen phigh plow plimit in
  same_queues r.1 self /\ descends order r.2.
Proof.
  unfold _try_exec_limit. frame_cases;
    first [apply execute_at_frame | split; cbn [fst snd]; auto with broker].
Qed.

Lemma try_exec_frame feed self order :
  let r := _try_exec feed self order in
  same_queues r.1 self /\ descends order r.2.
Proof.
  unfold _try_exec. cbn zeta.
  destruct (Order.exectype order).
  - apply execute_at_frame.
  - unfold _try_exec_close. cbn zeta. frame_cases;
      first [apply execute_at_frame | split; cbn [fst snd]; auto with broker].
  - apply try_exec_limit_frame.
  - unfold _try_exec_stop. frame_cases;
      first [apply execute_at_frame | split; cbn [fst snd]; auto with broker].
  - destruct (Order.triggered order) eqn:Ht; [apply try_exec_limit_frame|].
    unfold _try_exec_stoplimit. frame_cases;
      first [ split; [apply same_queues_refl|]; cbn [fst snd]; solve [auto with broker]
            | match goal with
              | |- context [execute_at ?f ?s ?o ?a ?p] =>
                  destruct (execute_at_frame f s o a p) as [Q D];
                  cbn zeta in Q, D; split; [exact Q|];
                  eapply descends_trans; [apply descends_set_triggered|exact D]
              end ].
Qed.

(** The matching loop only rotates the pending queue: what is pending
    afterwards descends from what was pending, and the submitted queue is
    not touched. *)
Lemma next_loop_frame feed n :
  forall self,
    let s := next_loop feed n self in
    submitted s = submitted self
    /\ p_checksubmit s = p_checksubmit self
    /\ Forall (fun o' => exists o, o ∈ pending self /\ descends o o')
         (pending s).
Proof.
  induction n as [|n IH]; intros self; cbn zeta.
  - cbn [next_loop]. repeat split.
    apply Forall_forall. intros o Ho. exists o. split; [exact Ho|].
    apply descends_refl.
  - cbn [next_loop]. destruct (pending self) as [|order rest] eqn:Hp.
    { rewrite Hp. repeat split. constructor. }
    pose proof (descends_expire
                  (Data.datetime (feed (Order.data order)) 0) order) as Hexp.
    destruct (Order.expire _ order) as [expired order1]. cbn [snd] in Hexp.
    destruct expired.
    + destruct (IH (notify (with_pending rest self) order1)) as (I1 & I2 & I3).
      cbn zeta in I1, I2, I3. repeat split; try assumption.
      eapply Forall_impl; [exact I3|].
      intros o' (o & Ho & Hd). exists o. split; [|exact Hd].
      cbn in Ho. apply elem_of_cons. right. exact Ho.
    + pose proof (try_exec_frame feed (with_pending rest self) order1) as Hf.
      cbn zeta in Hf.
      destruct (_try_exec feed (with_pending rest self) order1) as [s2 order2].
      cbn [fst snd] in Hf. destruct Hf as ((Q1 & Q2 & Q3) & Hd2).
      cbn in Q1, Q2, Q3.
      set (s3 := if Order.alive order2
                 then with_pending (pending s2 ++ [order2]) s2 else s2).
      assert (H3 : submitted s3 = submitted self
                   /\ p_checksubmit s3 = p_checksubmit self
                   /\ Forall (fun o' => exists o,
                                 o ∈ order :: rest /\ descends o o')
                        (pending s3)).
      { unfold s3. destruct (Order.alive order2); cbn; rewrite ?Q1;
          (split; [exact Q2|]); (split; [exact Q3|]).
        - apply Forall_app. split.
          + apply Forall_forall. intros o Ho. exists o.
            split; [apply elem_of_cons; right; exact Ho|apply descends_refl].
          + constructor; [|constructor]. exists order.
            split; [apply elem_of_cons; left; reflexivity|].
            eapply descends_trans; eassumption.
        - apply Forall_forall. intros o Ho. exists o.
          split; [apply elem_of_cons; right; exact Ho|apply descends_refl]. }
      destruct H3 as (H31 & H32 & H33).
      destruct (IH s3) as (I1 & I2 & I3). cbn zeta in I1, I2, I3.
      split; [congruence|]. split; [congruence|].
      eapply Forall_impl; [exact I3|].
      intros o' (o & Ho & Hd).
      rewrite Forall_forall in H33. destruct (H33 o Ho) as (o0 & Ho0 & Hd0).
      exists o0. split; [exact Ho0|]. eapply descends_trans; eassumption.
Qed.

(** ** Matching rules *)

Lemma Qcgeb_true x y : Qcgeb x y = true <-> y ≤ x.
Proof. apply Qcleb_true. Qed.

Lemma Qcgeb_false x y : Qcgeb x y = false <-> x < y.
Proof. apply Qcleb_false. Qed.





Example scenarioB_next :
  let self' := next scenarioB_feed scenarioB_broker in
  pending self' = [scenarioB_order]%list
  /\ notifs self' = [] /\ cash self' = Qz 10000.
Proof.
  cbv zeta. split; [vm_compute; reflexivity|].
  split; [vm_compute; reflexivity|].
  apply Qc_is_canon. vm_compute. reflexivity.
Qed.

(** C7. StopLimit gap rule: an un-triggered buy StopLimit order on a bar
    whose open is at or above the trigger price becomes triggered, and fills
    this bar at the open if limit >= open, else at the limit if limit >= low,
    else not at all.  The flag is never reset: matching or expiring any
    order keeps a set flag set, so it is still set on whatever the matching
    loop leaves pending, and a triggered StopLimit order is matched as a
    Limit order against its limit price. *)
Theorem stoplimit_gap_rule (feed : Feed) (self : BrokerBack)
    (order : Order.t) :
  Order.exectype order = Order.StopLimit ->
  Order.triggered order = false ->
  Order.isbuy order = true ->
  let bar := feed (Order.data order) in
  let popen := py_or (Data.tick_open bar) (Data.open bar) in
  let plow := py_or (Data.tick_low bar) (Data.low bar) in
  let trigger := Order.created_price order in
  let limit := Order.created_pricelimit order in
  trigger ≤ popen ->
  let order1 := Order.set_triggered true order in
  Order.triggered (_try_exec feed self order).2 = true
  /\ (popen ≤ limit ->
      _try_exec feed self order = execute_at feed self order1 0 popen)
  /\ (limit < popen -> plow ≤ limit ->
      _try_exec feed self order = execute_at feed self order1 0 limit)
  /\ (limit < popen -> limit < plow ->
      _try_exec feed self order = (self, order1))
  /\ (forall feed' self' o,
        Order.triggered o = true ->
        Order.triggered (_try_exec feed' self' o).2 = true
        /\ forall dt0, Order.triggered (Order.expire dt0 o).2 = true)
  /\ (forall feed' n self',
        Forall (fun o' => exists o,
                  o ∈ pending self' /\ Order.ref o' = Order.ref o
                  /\ (Order.triggered o = true -> Order.triggered o' = true))
          (pending (next_loop feed' n self')))
  /\ (forall feed' self' o,
        Order.exectype o = Order.StopLimit ->
        Order.triggered o = true ->
        let bar' := feed' (Order.data o) in
        _try_exec feed' self' o
        = _try_exec_limit feed' self' o
            (py_or (Data.tick_open bar') (Data.open bar'))
            (py_or (Data.tick_high bar') (Data.high bar'))
            (py_or (Data.tick_low bar') (Data.low bar'))
            (Order.created_pricelimit o)).
Proof.
  intros Hty Htr Hb bar popen plow trigger limit Hgap order1.
  assert (Hdisp : _try_exec feed self order
                  = if Qcgeb limit popen
                    then execute_at feed self order1 0 popen
                    else if Qcgeb limit plow
                         then execute_at feed self order1 0 limit
                         else (self, order1)).
  { unfold _try_exec. cbn zeta. rewrite Hty, Htr.
    unfold _try_exec_stoplimit. rewrite Hb.
    apply Qcgeb_true in Hgap. fold bar. fold popen. fold trigger.
    rewrite Hgap. reflexivity. }
  split.
  { rewrite Hdisp.
    assert (Ht1 : Order.triggered order1 = true) by reflexivity.
    destruct (Qcgeb limit popen); [|destruct (Qcgeb limit plow)].
    - destruct (execute_at_frame feed self order1 0 popen) as [_ D].
      apply D. exact Ht1.
    - destruct (execute_at_frame feed self order1 0 limit) as [_ D].
      apply D. exact Ht1.
    - exact Ht1. }
  split.
  { intros H. apply Qcgeb_true in H. rewrite Hdisp, H. reflexivity. }
  split.
  { intros H1 H2. apply Qcgeb_false in H1. apply Qcgeb_true in H2.
    rewrite Hdisp, H1, H2. reflexivity. }
  split.
  { intros H1 H2. apply Qcgeb_false in H1, H2.
    rewrite Hdisp, H1, H2. reflexivity. }
  split.
  { intros feed' self' o Ht. split.
    - destruct (try_exec_frame feed' self' o) as [_ D]. apply D. exact Ht.
    - intros dt0. apply (descends_expire dt0 o). exact Ht. }
  split.
  { intros feed' n self'.
    destruct (next_loop_frame feed' n self') as (_ & _ & F).
    eapply Forall_impl; [exact F|].
    intros o' (o & Ho & Hd). exists o. split; [exact Ho|].
    split; apply Hd. }
  intros feed' self' o Hty' Ht'. cbn zeta. unfold _try_exec. cbn zeta.
  rewrite Hty', Ht'. reflexivity.
Qed.

Lemma stoplimit_gap_rule_witness :
  let r := _try_exec scenarioF_feed scenarioF_broker scenarioF_order in
  Order.triggered r.2 = true
  /\ r = execute_at scenarioF_feed scenarioF_broker
           (Order.set_triggered true scenarioF_order) 0 (Qz 106)
  /\ map Qcanon.this (map Order.price (Order.executed_bits r.2))
     = [106%Q]%list
  /\ Order.status r.2 = Order.Completed.
Proof.
  pose proof (stoplimit_gap_rule scenarioF_feed scenarioF_broker
                scenarioF_order eq_refl eq_refl eq_refl) as H.
  cbv zeta in H.
  assert (Hgap : Order.created_price scenarioF_order
                 ≤ py_or (Data.tick_open (scenarioF_feed
                                            (Order.data scenarioF_order)))
                     (Data.open (scenarioF_feed (Order.data scenarioF_order)))).
  { vm_compute. discriminate. }
  destruct (H Hgap) as (Ht & _ & Hlim & _).
  cbv zeta. split; [exact Ht|].
  split; [apply Hlim; vm_compute; [reflexivity|discriminate]|].
  split; vm_compute; reflexivity.
Defined.

(** ** Close orders *)

(** A Close order fills only when the session has ended, at the annotated
    close if the decision was deferred and at the bar's close otherwise;
    until then the bar's close is annotated on the order.  Either way the
    execution is asked for bar index 0. *)
Lemma try_exec_close_rule feed self order pclose :
  _try_exec_close feed self order pclose
  = if session_ended feed self order then
      execute_at feed self order 0
        (if deferred feed order
         then default pclose (Order.pannotated order) else pclose)
    else (self, Order.set_pannotated (Some pclose) order).
Proof.
  unfold _try_exec_close, session_ended, deferred. cbn zeta.
  destruct (bool_decide _); cbn [andb]; [|reflexivity].
  destruct (Qcgtb _ _ || _); [|reflexivity].
  destruct (Order.pannotated order) as [pa|]; cbn [truthy_opt andb default];
    [|reflexivity].
  destruct (truthy pa && negb _); reflexivity.
Qed.

(** C6. The deferred Close fill: the order is executed at the annotated
    close of the previous bar, yet with bar index 0, so the fill is dated
    with the current bar (1001) and not with the previous one (1000). *)
Theorem try_exec_close_deferred_ago :
  let r := _try_exec deferred_feed deferred_broker deferred_order in
  deferred deferred_feed deferred_order = true
  /\ r = execute_at deferred_feed deferred_broker deferred_order 0 (Qz 101)
  /\ map Qcanon.this (map Order.price (Order.executed_bits r.2)) = [101%Q]%list
  /\ map Qcanon.this (map Order.dt (Order.executed_bits r.2)) = [1001%Q]%list
  /\ Qcanon.this (Data.datetime (deferred_feed 0%nat) 0) = 1001%Q
  /\ Qcanon.this (Data.datetime (deferred_feed 0%nat) (-1)) = 1000%Q.
Proof.
  cbv zeta. split; [vm_compute; reflexivity|].
  split.
  { unfold _try_exec. cbn zeta.
    change (Order.exectype deferred_order) with Order.Close. cbn match.
    rewrite try_exec_close_rule.
    replace (session_ended deferred_feed deferred_broker deferred_order)
      with true by (vm_compute; reflexivity).
    replace (deferred deferred_feed deferred_order)
      with true by (vm_compute; reflexivity).
    reflexivity. }
  repeat split; vm_compute; reflexivity.
Qed.

(** ** Portfolio value *)





(** ** Queue exclusivity *)


Lemma sweep_queues feed self :
  let s := foldl (cashadjust_item feed) self (map_to_list (positions self)) in
  pending s = pending self /\ submitted s = submitted self.
Proof.
  destruct (sweep_spec feed (map_to_list (positions self))
              (NoDup_fst_map_to_list _) self) as (_ & _ & _ & _ & P & _ & S).
  split; assumption.
Qed.





(** ** Scenarios of the specification *)

(** Scenario A: starting cash 10000, no commission, a market buy of 10 units
    on a bar that opens at 100. *)
Example scenarioA :
  let order := new_order 1 true Order.Market 10 100 0 in
  let self := (submit (init (Qz 10000) true false None (stock_scheme 0))
                 order).1 in
  let self' := next (fun _ => bar 10 100 105 97 102) self in
  cash self' = Qz 9000
  /\ Position.size (position_of self' 0%nat) = Qz 10
  /\ Position.price (position_of self' 0%nat) = Qz 100
  /\ map Order.status (notifs self')
     = [Order.Submitted; Order.Accepted; Order.Completed]
  /\ pending self' = [].
Proof.
  cbv zeta. repeat split;
    first [apply Qc_is_canon; vm_compute; reflexivity | vm_compute; reflexivity].
Qed.

(** Scenario C: long 10 units at 100, stock-like without commission; a
    market sell of the 10 units on a bar that opens at 110. *)
Example scenarioC :
  let order := Order.accept (new_order 1 false Order.Market 10 110 0) in
  let self :=
    with_pending [order]
      (with_positions {[ 0%nat := Position.mk (Qz 10) (Qz 100) (Qz 100) ]}
         (init (Qz 9000) true false None (stock_scheme 0))) in
  let self' := next (fun _ => bar 11 110 115 107 112) self in
  cash self' = Qz 10100
  /\ Position.size (position_of self' 0%nat) = 0
  /\ map Qcanon.this (map Order.pnl (Order.executed_bits
                                       (default order (head (notifs self')))))
     = [100%Q]%list
  /\ map Order.status (notifs self') = [Order.Completed]%list.
Proof.
  cbv zeta. repeat split;
    first [apply Qc_is_canon; vm_compute; reflexivity | vm_compute; reflexivity].
Qed.

(** Scenario D: [cancel] on an order that is not pending (here: completed
    and gone from the queue) returns [False] and changes nothing. *)
Example scenarioD (self : BrokerBack) (order : Order.t) :
  (forall o, o ∈ pending self -> Order.ref o <> Order.ref order) ->
  cancel self order = (false, self).
Proof.
  intros H. unfold cancel.
  assert (E : deque_remove (Order.ref order) (pending self) = None).
  { induction (pending self) as [|o q IH]; [reflexivity|].
    cbn. rewrite bool_decide_eq_false_2.
    - rewrite IH; [reflexivity|].
      intros o' Ho'. apply H. apply elem_of_cons. right. exact Ho'.
    - apply H. apply elem_of_cons. left. reflexivity. }
  rewrite E. reflexivity.
Qed.

(** Daily settlement of a futures position: long 2 contracts with
    adjustment base 100 and multiplier 10; the bar closes at 102, so 40 is
    added to the cash and the adjustment base becomes 102. *)
Example futures_settlement :
  let self :=
    with_positions {[ 0%nat := Position.mk (Qz 2) (Qz 100) (Qz 100) ]}
      (init (Qz 5000) true false None (futures_scheme (Qz 1000) (Qz 10) 0)) in
  let self' := next (fun _ => bar 10 100 105 97 102) self in
  cash self' = Qz 5040
  /\ Position.adjbase (position_of self' 0%nat) = Qz 102
  /\ Position.size (position_of self' 0%nat) = Qz 2.
Proof.
  cbv zeta. repeat split; apply Qc_is_canon; vm_compute; reflexivity.
Qed.

(** ** What no operation changes, and what only grows *)

Lemma extends_refl a : extends a a.
Proof. repeat split; reflexivity. Qed.

Lemma extends_trans a b c : extends a b -> extends b c -> extends a c.
Proof.
  intros (A1 & A2 & A3) (B1 & B2 & B3). repeat split.
  - congruence.
  - etransitivity; eassumption.
  - etransitivity; eassumption.
Qed.

Lemma extends_notify a o : extends a (notify a o).
Proof.
  repeat split; cbn; [apply prefix_app_r|]; reflexivity.
Qed.

Lemma extends_getitem self d : extends self (positions_getitem self d).2.
Proof.
  unfold positions_getitem. destruct (positions self !! d);
    repeat split; reflexivity.
Qed.

Lemma extends_with_cash a c : extends a (with_cash c a).
Proof. repeat split; reflexivity. Qed.

Lemma extends_with_positions a m : extends a (with_positions m a).
Proof. repeat split; reflexivity. Qed.

Lemma extends_with_pending a l : extends a (with_pending l a).
Proof. repeat split; reflexivity. Qed.

Lemma extends_with_submitted a l : extends a (with_submitted l a).
Proof. repeat split; reflexivity. Qed.

#[local] Hint Resolve extends_refl extends_notify extends_getitem
  extends_with_cash extends_with_positions extends_with_pending
  extends_with_submitted : broker.

Ltac extends_chain :=
  repeat first
    [ apply extends_refl
    | apply extends_getitem
    | match goal with
      | |- extends ?a (notify ?b _) =>
          apply (extends_trans a b); [|apply extends_notify]
      | |- extends ?a (with_cash _ ?b) =>
          apply (extends_trans a b); [|apply extends_with_cash]
      | |- extends ?a (with_positions _ ?b) =>
          apply (extends_trans a b); [|apply extends_with_positions]
      | |- extends ?a (with_pending _ ?b) =>
          apply (extends_trans a b); [|apply extends_with_pending]
      | |- extends ?a (with_submitted _ ?b) =>
          apply (extends_trans a b); [|apply extends_with_submitted]
      end ].

Lemma execute_extends feed self order args :
  extends self (res_self (_execute feed self order args)).
Proof.
  unfold _execute. cbn zeta. destruct args as [ago price|c p]; cbn match;
    cbn [is_real].
  - set (gp := positions_getitem self (Order.data order)).
    assert (G : extends self gp.2) by apply extends_getitem.
    clearbody gp.
    repeat (match goal with
            | |- context [if ?c then _ else _] => destruct c
            end; cbn iota);
      cbn [res_self]; extends_chain; exact G.
  - destruct (p_filler self);
      repeat (match goal with
              | |- context [if ?c then _ else _] => destruct c
              end; cbn iota);
      cbn [res_self]; apply extends_refl.
Qed.

Lemma execute_at_extends feed self order ago price :
  extends self (execute_at feed self order ago price).1.
Proof. apply execute_extends. Qed.

Lemma try_exec_extends feed self order :
  extends self (_try_exec feed self order).1.
Proof.
  unfold _try_exec, _try_exec_close, _try_exec_limit, _try_exec_stop,
    _try_exec_stoplimit. cbn zeta.
  destruct (Order.exectype order); frame_cases; cbn [fst];
    first [apply execute_at_extends | apply extends_refl].
Qed.

Lemma next_loop_extends feed n :
  forall self, extends self (next_loop feed n self).
Proof.
  induction n as [|n IH]; intros self; cbn [next_loop];
    [apply extends_refl|].
  destruct (pending self) as [|order rest]; [apply extends_refl|].
  destruct (Order.expire _ order) as [[] order1].
  - eapply extends_trans; [|apply IH]. extends_chain.
  - pose proof (try_exec_extends feed (with_pending rest self) order1) as H.
    destruct (_try_exec feed (with_pending rest self) order1) as [s2 order2].
    cbn [fst] in H. eapply extends_trans; [|apply IH].
    destruct (Order.alive order2); extends_chain; exact H.
Qed.

Lemma sweep_extends feed (l : list (DataId * Position.t)) :
  forall self, extends self (foldl (cashadjust_item feed) self l).
Proof.
  induction l as [|item l IH]; intros self; cbn [foldl];
    [apply extends_refl|].
  eapply extends_trans; [|apply IH].
  unfold cashadjust_item. destruct (Position.bool_ item.2); extends_chain.
Qed.

Lemma check_submitted_loop_extends feed queue :
  forall c scratch self,
    extends self (check_submitted_loop feed queue c scratch self).
Proof.
  induction queue as [|o rest IH]; intros c scratch self;
    cbn [check_submitted_loop]; [apply extends_refl|]. cbn zeta.
  set (self1 := (positions_getitem (with_submitted rest self)
                   (Order.data o)).2).
  assert (H1 : extends self self1).
  { unfold self1. eapply extends_trans;
      [apply (extends_with_submitted self rest)|apply extends_getitem]. }
  match goal with
  | |- context [_execute feed self1 o ?a] =>
      destruct (execute_pseudo_pure feed self1 o c
                  (setdefault scratch (Order.data o)
                     (Position.clone
                        (positions_getitem (with_submitted rest self)
                           (Order.data o)).1)).1) as (Es & Eo & _)
  end.
  cbn zeta in Es, Eo. rewrite Es, Eo.
  destruct (Qcgeb _ 0); (eapply extends_trans; [|apply IH]).
  - unfold submit_accept. cbn [fst]. extends_chain. exact H1.
  - extends_chain. exact H1.
Qed.

(** X1. Every operation that processes orders keeps the configuration
    (parameters, commission schemes, starting cash) and only appends to the
    notification queue and to the order register: a notification, once
    queued, is only ever removed by [get_notification]. *)
Theorem operations_append_only :
  (forall self o, extends self (submit self o).1)
  /\ (forall self o, extends self (cancel self o).2)
  /\ (forall feed self, extends self (check_submitted feed self))
  /\ (forall feed self, extends self (next feed self))
  /\ (forall feed self order args,
        extends self (res_self (_execute feed self order args))).
Proof.
  split; [|split; [|split; [|split]]].
  - intros self o. unfold submit, submit_accept.
    destruct (p_checksubmit self); cbn [fst].
    + repeat split; cbn; [apply prefix_app_r|apply prefix_app_r]; reflexivity.
    + extends_chain.
  - intros self o. unfold cancel.
    destruct (deque_remove _ _); cbn [snd]; extends_chain.
  - intros feed self. apply check_submitted_loop_extends.
  - intros feed self. unfold next, next_matched. cbn zeta.
    eapply extends_trans; [|apply sweep_extends].
    eapply extends_trans; [|apply next_loop_extends].
    destruct (p_checksubmit self);
      [apply check_submitted_loop_extends|apply extends_refl].
  - apply execute_extends.
Qed.

(** ** Cancellation and the notification queue *)

Lemma deque_remove_first r l1 o l2 :
  Order.ref o = r ->
  (forall x, x ∈ l1 -> Order.ref x <> r) ->
  deque_remove r (l1 ++ o :: l2) = Some (l1 ++ l2).
Proof.
  intros Ho. induction l1 as [|x l1 IH]; intros Hl1; cbn.
  - rewrite bool_decide_eq_true_2 by exact Ho. reflexivity.
  - rewrite bool_decide_eq_false_2
      by (apply Hl1; apply elem_of_cons; left; reflexivity).
    rewrite IH; [reflexivity|].
    intros y Hy. apply Hl1. apply elem_of_cons. right. exact Hy.
Qed.

Lemma deque_remove_absent r q :
  (forall x, x ∈ q -> Order.ref x <> r) -> deque_remove r q = None.
Proof.
  induction q as [|x q IH]; intros H; cbn; [reflexivity|].
  rewrite bool_decide_eq_false_2
    by (apply H; apply elem_of_cons; left; reflexivity).
  rewrite IH; [reflexivity|].
  intros y Hy. apply H. apply elem_of_cons. right. exact Hy.
Qed.

(** X2. [cancel] takes the first pending order equal to the given one (same
    [ref]) out of the queue, keeps the others in their order, and notifies
    the object it was given with status Canceled; when no pending order is
    equal to it, it returns [False] and changes nothing.  In no case does it
    touch the cash, the positions or the submitted queue. *)
Theorem cancel_removes_first (self : BrokerBack) (order : Order.t) :
  (forall l1 o l2,
     pending self = l1 ++ o :: l2 ->
     Order.ref o = Order.ref order ->
     (forall x, x ∈ l1 -> Order.ref x <> Order.ref order) ->
     cancel self order
     = (true, notify (with_pending (l1 ++ l2) self) (Order.cancel order)))
  /\ ((forall x, x ∈ pending self -> Order.ref x <> Order.ref order) ->
      cancel self order = (false, self))
  /\ cash (cancel self order).2 = cash self
  /\ positions (cancel self order).2 = positions self
  /\ submitted (cancel self order).2 = submitted self.
Proof.
  split; [|split].
  - intros l1 o l2 Hp Ho Hl1. unfold cancel.
    rewrite Hp, (deque_remove_first _ l1 o l2 Ho Hl1). reflexivity.
  - intros H. unfold cancel. rewrite (deque_remove_absent _ _ H). reflexivity.
  - unfold cancel. destruct (deque_remove _ _); repeat split.
Qed.

Lemma get_notifications_all (l : list Order.t) :
  forall self,
    notifs self = l ->
    get_notifications (length l) self = (Some <$> l, with_notifs [] self).
Proof.
  induction l as [|o l IH]; intros self E.
  - cbn. destruct self. cbn in E. subst. reflexivity.
  - cbn [length get_notifications].
    assert (G : get_notification self = (Some o, with_notifs l self))
      by (unfold get_notification; rewrite E; reflexivity).
    rewrite G. cbn [fst snd].
    rewrite (IH (with_notifs l self) eq_refl). reflexivity.
Qed.

(** X3. The notification queue is first in, first out: taking as many
    notifications as are queued returns them in the order [notify] appended
    them and leaves the rest of the broker as it was; on the empty queue
    [get_notification] returns [None] and changes nothing, however often it
    is called. *)
Theorem notifications_fifo (self : BrokerBack) (new : list Order.t) :
  let self1 := foldl notify self new in
  notifs self1 = notifs self ++ new
  /\ get_notifications (length (notifs self1)) self1
     = (Some <$> (notifs self ++ new), with_notifs [] self)
  /\ (forall n,
        get_notifications n (with_notifs [] self)
        = (replicate n None, with_notifs [] self)).
Proof.
  cbn zeta.
  assert (H : forall l s, foldl notify s l = with_notifs (notifs s ++ l) s).
  { induction l as [|o l IH]; intros s; cbn [foldl].
    - rewrite app_nil_r. destruct s. reflexivity.
    - rewrite IH. cbn. rewrite <- app_assoc. reflexivity. }
  rewrite H. split; [reflexivity|]. split.
  - rewrite (get_notifications_all (notifs self ++ new)) by reflexivity.
    reflexivity.
  - induction n as [|n IH]; [reflexivity|].
    cbn [get_notifications replicate]. cbn [get_notification notifs
      with_notifs fst snd]. rewrite IH. reflexivity.
Qed.

(** ** The matching rules as decisions *)

Lemma try_exec_limit_decides feed self order popen phigh plow plimit :
  _try_exec_limit feed self order popen phigh plow plimit
  = match limit_price (Order.isbuy order) popen phigh plow plimit with
    | Some p => execute_at feed self order 0 p
    | None => (self, order)
    end.
Proof.
  unfold _try_exec_limit, limit_price.
  destruct (Order.isbuy order);
    repeat (match goal with
            | |- context [if ?c then _ else _] => destruct c
            end; cbn [fst snd]);
    reflexivity.
Qed.

Lemma try_exec_decides feed self order :
  _try_exec feed self order
  = match (matching feed self order).2 with
    | Some p => execute_at feed self (matching feed self order).1 0 p
    | None => (self, (matching feed self order).1)
    end.
Proof.
  unfold _try_exec, matching. cbn zeta.
  destruct (Order.exectype order); cbn [fst snd].
  - reflexivity.
  - rewrite try_exec_close_rule.
    destruct (session_ended feed self order); reflexivity.
  - apply try_exec_limit_decides.
  - unfold _try_exec_stop, stop_price.
    destruct (Order.isbuy order);
      repeat (match goal with
              | |- context [if ?c then _ else _] => destruct c
              end; cbn [fst snd]);
      reflexivity.
  - destruct (Order.triggered order); [apply try_exec_limit_decides|].
    unfold _try_exec_stoplimit, stoplimit_decision.
    destruct (Order.isbuy order);
      repeat (match goal with
              | |- context [if ?c then _ else _] => destruct c
              end; cbn [fst snd]);
      reflexivity.
Qed.

Lemma execute_at_bits feed self order ago price :
  let o' := (execute_at feed self order ago price).2 in
  new_fills order o' = []
  \/ exists b, new_fills order o' = [b]%list
               /\ Order.price b = price
               /\ Order.dt b = Data.datetime (feed (Order.data order)) ago.
Proof.
  unfold execute_at, _execute, new_fills. cbn zeta. cbn match. cbn [is_real].
  set (gp := positions_getitem self (Order.data order)). clearbody gp.
  repeat (match goal with
          | |- context [if ?c then _ else _] => destruct c
          end; cbn iota);
    cbn [snd res_order Order.margin Order.set_status Order.execute
         Order.set_executed Order.executed_bits];
    rewrite ?drop_all, ?drop_app_length;
    first [ left; reflexivity
          | right; eexists; split; [reflexivity|]; split; reflexivity ].
Qed.

Ltac qc_order :=
  unfold Qcgeb, Qcgtb in *;
  repeat match goal with
    | H : Qcleb _ _ = true |- _ => apply Qcleb_true in H
    | H : Qcleb _ _ = false |- _ => apply Qcleb_false in H
    | H : Qcltb _ _ = true |- _ => apply Qcltb_true in H
    | H : Qcltb _ _ = false |- _ => apply Qcltb_false in H
    end;
  unfold Qcle, Qclt in *; lra.

Lemma matching_bits feed self order :
  Order.executed_bits (matching feed self order).1
  = Order.executed_bits order
  /\ Order.data (matching feed self order).1 = Order.data order.
Proof.
  unfold matching. cbn zeta.
  destruct (Order.exectype order); frame_cases; split; reflexivity.
Qed.

Lemma try_exec_fills feed self order :
  new_fills order (_try_exec feed self order).2 = []
  \/ exists b,
       new_fills order (_try_exec feed self order).2 = [b]%list
       /\ Some (Order.price b) = (matching feed self order).2
       /\ Order.dt b = Data.datetime (feed (Order.data order)) 0.
Proof.
  rewrite try_exec_decides.
  destruct (matching_bits feed self order) as [Eb Ed].
  destruct (matching feed self order) as [o1 [p|]] eqn:Em; cbn [fst snd] in *.
  - assert (E : new_fills order (execute_at feed self o1 0 p).2
                = new_fills o1 (execute_at feed self o1 0 p).2)
      by (unfold new_fills; rewrite Eb; reflexivity).
    rewrite E. rewrite <- Ed.
    destruct (execute_at_bits feed self o1 0 p) as [-> | (b & -> & Hp & Hd)].
    + left. reflexivity.
    + right. exists b. split; [reflexivity|].
      split; [rewrite Hp; reflexivity|exact Hd].
  - left. unfold new_fills. rewrite Eb, drop_all. reflexivity.
Qed.

Lemma try_exec_fills_in feed self order b :
  b ∈ new_fills order (_try_exec feed self order).2 ->
  Some (Order.price b) = (matching feed self order).2
  /\ Order.dt b = Data.datetime (feed (Order.data order)) 0.
Proof.
  destruct (try_exec_fills feed self order) as [-> | (b' & -> & Hp & Hd)];
    intros Hb.
  - inversion Hb.
  - apply list_elem_of_singleton in Hb. subst b'. split; assumption.
Qed.

(** X4. What [_try_exec] does on one order and bar, whatever the order type: it
    decides on a price and calls for one execution at bar index 0, or it
    leaves the broker untouched.  So an order receives at most one fill per
    bar, at the decided price and dated with the current bar. *)
Theorem try_exec_at_most_one_fill (feed : Feed) (self : BrokerBack)
    (order : Order.t) :
  let r := _try_exec feed self order in
  let m := matching feed self order in
  (m.2 = None -> r = (self, m.1))
  /\ (length (new_fills order r.2) <= 1)%nat
  /\ (forall b, b ∈ new_fills order r.2 ->
        Some (Order.price b) = m.2
        /\ Order.dt b = Data.datetime (feed (Order.data order)) 0).
Proof.
  cbn zeta. split; [|split].
  - intros Hn. rewrite try_exec_decides.
    destruct (matching feed self order) as [o1 [p|]]; cbn [fst snd] in *;
      [discriminate Hn|reflexivity].
  - destruct (try_exec_fills feed self order) as [-> | (b & -> & _)];
      cbn; lia.
  - intros b. apply try_exec_fills_in.
Qed.

Lemma limit_price_bounds isbuy popen phigh plow plimit p :
  limit_price isbuy popen phigh plow plimit = Some p ->
  (if isbuy then p ≤ plimit else plimit ≤ p)
  /\ (plow ≤ popen -> popen ≤ phigh -> plow ≤ p /\ p ≤ phigh).
Proof.
  unfold limit_price. destruct isbuy;
    repeat match goal with
      | |- context [if ?c then _ else _] => destruct c eqn:?
      end; intros E; inversion E; subst; split; try split; intros;
    qc_order.
Qed.

Lemma stop_price_bounds isbuy popen phigh plow pcreated p :
  stop_price isbuy popen phigh plow pcreated = Some p ->
  (if isbuy then pcreated ≤ p else p ≤ pcreated)
  /\ (plow ≤ popen -> popen ≤ phigh -> plow ≤ p /\ p ≤ phigh).
Proof.
  unfold stop_price. destruct isbuy;
    repeat match goal with
      | |- context [if ?c then _ else _] => destruct c eqn:?
      end; intros E; inversion E; subst; split; try split; intros;
    qc_order.
Qed.

Lemma stoplimit_decision_bounds isbuy popen phigh plow pclose pcreated
    plimit p :
  (stoplimit_decision isbuy popen phigh plow pclose pcreated plimit).2
  = Some p ->
  (stoplimit_decision isbuy popen phigh plow pclose pcreated plimit).1 = true
  /\ (if isbuy then p ≤ plimit else plimit ≤ p)
  /\ (plow ≤ popen -> popen ≤ phigh -> plow ≤ pclose -> pclose ≤ phigh ->
      plow ≤ p /\ p ≤ phigh).
Proof.
  unfold stoplimit_decision. destruct isbuy;
    repeat (match goal with
            | |- context [if ?c then _ else _] => destruct c eqn:?
            end; cbn [fst snd]);
    intros E; inversion E; subst; (split; [reflexivity|]);
    split; try split; intros; qc_order.
Qed.

(** X5. Every fill of a Market, Limit, Stop or StopLimit order is at a price
    inside the bar, provided the bar is well formed (low <= open <= high and
    low <= close <= high). *)
Theorem fills_within_bar (feed : Feed) (self : BrokerBack) (order : Order.t) :
  let data := feed (Order.data order) in
  let popen := py_or (Data.tick_open data) (Data.open data) in
  let phigh := py_or (Data.tick_high data) (Data.high data) in
  let plow := py_or (Data.tick_low data) (Data.low data) in
  let pclose := py_or (Data.tick_close data) (Data.close data) in
  Order.exectype order <> Order.Close ->
  plow ≤ popen -> popen ≤ phigh -> plow ≤ pclose -> pclose ≤ phigh ->
  forall b, b ∈ new_fills order (_try_exec feed self order).2 ->
            plow ≤ Order.price b /\ Order.price b ≤ phigh.
Proof.
  intros data popen phigh plow pclose Hty H1 H2 H3 H4 b Hb.
  destruct (try_exec_fills_in feed self order b Hb) as [Hp _]. clear Hb.
  unfold matching in Hp. cbn zeta in Hp.
  fold data in Hp. fold popen in Hp. fold phigh in Hp. fold plow in Hp.
  fold pclose in Hp. symmetry in Hp.
  destruct (Order.exectype order); cbn [snd] in Hp.
  - inversion Hp. split; assumption.
  - contradiction Hty. reflexivity.
  - apply limit_price_bounds in Hp as [_ Hp]. apply Hp; assumption.
  - apply stop_price_bounds in Hp as [_ Hp]. apply Hp; assumption.
  - destruct (Order.triggered order); cbn [snd] in Hp.
    + apply limit_price_bounds in Hp as [_ Hp]. apply Hp; assumption.
    + apply stoplimit_decision_bounds in Hp as (_ & _ & Hp).
      apply Hp; assumption.
Qed.

Lemma fills_within_bar_witness :
  length (new_fills scenarioF_order
            (_try_exec scenarioF_feed scenarioF_broker scenarioF_order).2)
  = 1%nat
  /\ Forall (fun b => Qz 104 ≤ Order.price b /\ Order.price b ≤ Qz 110)
       (new_fills scenarioF_order
          (_try_exec scenarioF_feed scenarioF_broker scenarioF_order).2).
Proof.
  split; [vm_compute; reflexivity|]. apply Forall_forall.
  apply (fills_within_bar scenarioF_feed scenarioF_broker scenarioF_order);
    vm_compute; discriminate.
Defined.

(** X6. A Limit or StopLimit order is never filled at a price worse than its
    limit: a buy at no more than the limit, a sell at no less.  For a
    StopLimit order this holds on the bar that triggers it, gap or not, and
    on every later bar. *)
Theorem limit_never_worse (feed : Feed) (self : BrokerBack) (order : Order.t) :
  let limit :=
    match Order.exectype order with
    | Order.StopLimit => Order.created_pricelimit order
    | _ => Order.created_price order
    end in
  Order.exectype order = Order.Limit
  \/ Order.exectype order = Order.StopLimit ->
  forall b, b ∈ new_fills order (_try_exec feed self order).2 ->
            if Order.isbuy order then Order.price b ≤ limit
            else limit ≤ Order.price b.
Proof.
  intros limit Hty b Hb.
  destruct (try_exec_fills_in feed self order b Hb) as [Hp _]. clear Hb.
  unfold matching in Hp. cbn zeta in Hp. symmetry in Hp. subst limit.
  destruct Hty as [Hty|Hty]; rewrite Hty in *; cbn [snd] in Hp.
  - apply limit_price_bounds in Hp as [Hp _]. exact Hp.
  - destruct (Order.triggered order); cbn [snd] in Hp.
    + apply limit_price_bounds in Hp as [Hp _]. exact Hp.
    + apply stoplimit_decision_bounds in Hp as (_ & Hp & _). exact Hp.
Qed.

Lemma limit_never_worse_witness :
  length (new_fills scenarioF_order
            (_try_exec scenarioF_feed scenarioF_broker scenarioF_order).2)
  = 1%nat
  /\ Forall (fun b => Order.price b ≤ Qz 106)
       (new_fills scenarioF_order
          (_try_exec scenarioF_feed scenarioF_broker scenarioF_order).2).
Proof.
  split; [vm_compute; reflexivity|]. apply Forall_forall.
  exact (limit_never_worse scenarioF_feed scenarioF_broker scenarioF_order
           (or_intror eq_refl)).
Defined.





(** ** Buy and sell rules as mirror images *)

Lemma Qcleb_opp x y : Qcleb (- x) (- y) = Qcleb y x.
Proof.
  unfold Qcleb. apply bool_decide_ext. split; intros H.
  - apply Qcopp_le_compat in H. rewrite !Qcopp_involutive in H. exact H.
  - apply Qcopp_le_compat. exact H.
Qed.

Lemma Qcltb_opp x y : Qcltb (- x) (- y) = Qcltb y x.
Proof.
  unfold Qcltb. apply bool_decide_ext. split; intros H.
  - apply Qclt_nge. intros G. apply Qcopp_le_compat in G.
    apply Qclt_nge in H. contradiction.
  - apply Qclt_nge. intros G. apply Qcopp_le_compat in G.
    rewrite !Qcopp_involutive in G. apply Qclt_nge in H. contradiction.
Qed.

Lemma Qcleb_ltb_ne x y : x <> y -> Qcleb x y = Qcltb x y.
Proof.
  intros Hne. unfold Qcleb, Qcltb. apply bool_decide_ext. split; intros H.
  - apply Qcle_lt_or_eq in H as [H|H]; [exact H|contradiction].
  - apply Qclt_le_weak. exact H.
Qed.

(** X8. The sell side of the Limit and Stop rules is the buy side reflected
    around zero (prices negated, high and low exchanged): the same decision,
    at the negated price.  The StopLimit rule on an un-triggered order is
    such a mirror image on every bar whose open differs from its close; on a
    bar that opens and closes at the same price the two sides differ, the
    intrabar branch treating it as a rising bar for both. *)
Theorem buy_sell_mirror :
  (forall feed self order popen phigh plow pclose pcreated plimit,
     _try_exec_stoplimit feed self order popen phigh plow pclose pcreated
       plimit
     = let d := stoplimit_decision (Order.isbuy order) popen phigh plow
                  pclose pcreated plimit in
       let order1 := if d.1 then Order.set_triggered true order else order in
       match d.2 with
       | Some p => execute_at feed self order1 0 p
       | None => (self, order1)
       end)
  /\ (forall isbuy popen phigh plow p,
        limit_price (negb isbuy) (- popen) (- plow) (- phigh) (- p)
        = Qcopp <$> limit_price isbuy popen phigh plow p)
  /\ (forall isbuy popen phigh plow p,
        stop_price (negb isbuy) (- popen) (- plow) (- phigh) (- p)
        = Qcopp <$> stop_price isbuy popen phigh plow p)
  /\ (forall isbuy popen phigh plow pclose pcreated plimit,
        popen <> pclose ->
        stoplimit_decision (negb isbuy) (- popen) (- plow) (- phigh)
          (- pclose) (- pcreated) (- plimit)
        = prod_map id (fmap Qcopp)
            (stoplimit_decision isbuy popen phigh plow pclose pcreated
               plimit))
  /\ (doji_sell.2 = Some (Qz 101) /\ doji_buy.2 = None).
Proof.
  split; [|split; [|split; [|split]]].
  - intros. cbn zeta. unfold _try_exec_stoplimit, stoplimit_decision.
    destruct (Order.isbuy order);
      repeat (match goal with
              | |- context [if ?c then _ else _] => destruct c
              end; cbn [fst snd]);
      reflexivity.
  - intros isbuy popen phigh plow p. unfold limit_price, Qcgeb.
    destruct isbuy; cbn [negb]; rewrite !Qcleb_opp;
      repeat match goal with
        | |- context [if ?c then _ else _] => destruct c
        end; reflexivity.
  - intros isbuy popen phigh plow p. unfold stop_price, Qcgeb.
    destruct isbuy; cbn [negb]; rewrite !Qcleb_opp;
      repeat match goal with
        | |- context [if ?c then _ else _] => destruct c
        end; reflexivity.
  - intros isbuy popen phigh plow pclose pcreated plimit Hne.
    unfold stoplimit_decision, Qcgeb, Qcgtb.
    destruct isbuy; cbn [negb]; rewrite !Qcleb_opp, ?Qcltb_opp.
    + rewrite (Qcleb_ltb_ne pclose popen) by (intros E; apply Hne; symmetry;
                                               exact E).
      repeat match goal with
        | |- context [if ?c then _ else _] => destruct c
        end; reflexivity.
    + rewrite (Qcleb_ltb_ne popen pclose) by exact Hne.
      repeat match goal with
        | |- context [if ?c then _ else _] => destruct c
        end; reflexivity.
  - split; vm_compute; reflexivity.
Qed.

(** X9. An un-triggered StopLimit order gets triggered exactly when the bar
    reaches its trigger price (buy: open or high at or above it; sell: open
    or low at or below it), whether or not it is filled on that bar, and it
    is never filled on a bar that does not trigger it. *)
Theorem stoplimit_triggers (feed : Feed) (self : BrokerBack)
    (order : Order.t) :
  Order.exectype order = Order.StopLimit ->
  Order.triggered order = false ->
  let data := feed (Order.data order) in
  let popen := py_or (Data.tick_open data) (Data.open data) in
  let phigh := py_or (Data.tick_high data) (Data.high data) in
  let plow := py_or (Data.tick_low data) (Data.low data) in
  let trigger := Order.created_price order in
  let reached :=
    if Order.isbuy order
    then Qcgeb popen trigger || Qcgeb phigh trigger
    else Qcleb popen trigger || Qcleb plow trigger in
  Order.triggered (_try_exec feed self order).2 = reached
  /\ (reached = false -> _try_exec feed self order = (self, order)).
Proof.
  intros Hty Htr data popen phigh plow trigger reached.
  assert (Hm : (matching feed self order).1
               = (if reached then Order.set_triggered true order else order)
               /\ (reached = false -> (matching feed self order).2 = None)).
  { unfold matching. cbn zeta. rewrite Hty, Htr. cbn [fst snd].
    fold data. fold popen. fold phigh. fold plow. fold trigger.
    unfold reached, stoplimit_decision.
    destruct (Order.isbuy order).
    - destruct (Qcgeb popen trigger), (Qcgeb phigh trigger);
        cbn [fst snd orb]; split;
        first [reflexivity | intros E; first [discriminate E | reflexivity]].
    - destruct (Qcleb popen trigger), (Qcleb plow trigger);
        cbn [fst snd orb]; split;
        first [reflexivity | intros E; first [discriminate E | reflexivity]]. }
  destruct Hm as [Hm1 Hm2].
  assert (Ht : Order.triggered (matching feed self order).1 = reached).
  { rewrite Hm1. destruct reached; [reflexivity|exact Htr]. }
  rewrite try_exec_decides.
  destruct (matching feed self order).2 as [p|] eqn:Ep.
  - destruct reached eqn:Er.
    + split; [|discriminate].
      destruct (execute_at_frame feed self (matching feed self order).1 0 p)
        as [_ D]. apply D. exact Ht.
    + specialize (Hm2 eq_refl). discriminate.
  - cbn [snd]. split; [exact Ht|].
    intros Er. rewrite Hm1, Er. reflexivity.
Qed.

Lemma stoplimit_triggers_witness :
  Order.triggered
    (_try_exec scenarioF_feed scenarioF_broker scenarioF_order).2 = true.
Proof.
  exact (proj1 (stoplimit_triggers scenarioF_feed scenarioF_broker
                  scenarioF_order eq_refl eq_refl)).
Defined.

(** ** Order of processing *)

Lemma next_loop_fifo feed n :
  forall self,
    (n <= length (pending self))%nat ->
    exists rs,
      Order.ref <$> pending (next_loop feed n self)
      = (Order.ref <$> drop n (pending self)) ++ rs
      /\ rs `sublist_of` (Order.ref <$> take n (pending self)).
Proof.
  induction n as [|n IH]; intros self Hn.
  - exists []. cbn [next_loop]. rewrite drop_0, app_nil_r.
    split; [reflexivity|]. cbn. constructor.
  - cbn [next_loop]. destruct (pending self) as [|order rest] eqn:Hp;
      [cbn in Hn; lia|].
    cbn [length] in Hn. cbn [drop take fmap list_fmap].
    pose proof (descends_expire
                  (Data.datetime (feed (Order.data order)) 0) order) as Hexp.
    destruct (Order.expire _ order) as [expired order1]. cbn [snd] in Hexp.
    destruct expired.
    + destruct (IH (notify (with_pending rest self) order1)) as (rs & E & S);
        [cbn; lia|].
      cbn [pending notify with_notifs with_pending] in E, S.
      exists rs. split; [exact E|]. apply sublist_cons. exact S.
    + pose proof (try_exec_frame feed (with_pending rest self) order1) as Hf.
      cbn zeta in Hf.
      destruct (_try_exec feed (with_pending rest self) order1) as [s2 order2].
      cbn [fst snd] in Hf. destruct Hf as ((Q1 & _ & _) & Hd2).
      cbn in Q1.
      assert (Hr : Order.ref order2 = Order.ref order).
      { destruct Hd2 as [-> _]. apply Hexp. }
      destruct (Order.alive order2).
      * rewrite Q1.
        destruct (IH (with_pending (rest ++ [order2]) s2))
          as (rs & E & S); [cbn; rewrite length_app; cbn; lia|].
        cbn [pending with_pending] in E, S.
        rewrite drop_app_le in E by lia. rewrite take_app_le in S by lia.
        rewrite fmap_app in E. cbn [fmap list_fmap] in E. rewrite Hr in E.
        exists (Order.ref order :: rs). split.
        -- rewrite E, <- app_assoc. reflexivity.
        -- apply sublist_skip. exact S.
      * destruct (IH s2) as (rs & E & S); [rewrite Q1; lia|].
        rewrite Q1 in E, S. exists rs. split; [exact E|].
        apply sublist_cons. exact S.
Qed.

Lemma admitted_sublist (tr : list (Order.t * Qc)) :
  (Order.ref <$> omap admitted tr) `sublist_of` (Order.ref <$> tr.*1).
Proof.
  induction tr as [|oc tr IH]; [constructor|].
  change (omap admitted (oc :: tr))
    with (match admitted oc with
          | Some y => y :: omap admitted tr
          | None => omap admitted tr
          end).
  cbn [fmap list_fmap]. unfold admitted at 1.
  destruct (Qcgeb oc.2 0).
  - cbn [fmap list_fmap]. rewrite verdict_ref. apply sublist_skip. exact IH.
  - apply sublist_cons. exact IH.
Qed.

(** X10. One simulation step handles the orders first in, first out and each at
    most once: the matching loop rotates the pending queue once, so that
    what is pending afterwards is, by [ref], a subsequence of what was
    pending followed by what was submitted (the admitted orders take part in
    the matching of the same step).  No order is duplicated or reordered. *)
Theorem next_keeps_fifo (feed : Feed) (self : BrokerBack) :
  (Order.ref <$> pending (next feed self))
    `sublist_of` (Order.ref <$> (pending self ++ submitted self))
  /\ (forall n, (n <= length (pending self))%nat ->
        exists rs,
          Order.ref <$> pending (next_loop feed n self)
          = (Order.ref <$> drop n (pending self)) ++ rs
          /\ rs `sublist_of` (Order.ref <$> take n (pending self))).
Proof.
  split; [|intros n Hn; apply next_loop_fifo; exact Hn].
  unfold next, next_matched. cbn zeta.
  set (s1 := if p_checksubmit self then check_submitted feed self else self).
  destruct (sweep_queues feed (next_loop feed (length (pending s1)) s1))
    as [Sp _]. cbn zeta in Sp. rewrite Sp.
  destruct (next_loop_fifo feed (length (pending s1)) s1) as (rs & E & S);
    [lia|].
  rewrite drop_all in E. rewrite firstn_all in S. cbn in E. rewrite E.
  etransitivity; [exact S|].
  unfold s1. destruct (p_checksubmit self).
  - destruct (check_submitted_spec feed self) as (_ & _ & Hq & _).
    cbn zeta in Hq. rewrite Hq, !fmap_app.
    apply sublist_app; [reflexivity|].
    rewrite <- (admission_orders feed self (submitted self) (cash self) ∅)
      at 2.
    apply admitted_sublist.
  - rewrite fmap_app. apply sublist_inserts_r. reflexivity.
Qed.

(** ** Idle steps, registration and restart *)

Lemma sweep_flat feed (l : list (DataId * Position.t)) :
  Forall (fun item => Position.size item.2 = 0) l ->
  forall self, foldl (cashadjust_item feed) self l = self.
Proof.
  induction 1 as [|item l Hz _ IH]; intros self; cbn [foldl];
    [reflexivity|].
  unfold cashadjust_item at 2. unfold Position.bool_.
  apply truthy_false in Hz. rewrite Hz. apply IH.
Qed.

Lemma next_matched_idle (feed : Feed) (self : BrokerBack) :
  submitted self = [] ->
  pending self = [] ->
  next_matched feed self = self.
Proof.
  intros Hs Hp. unfold next_matched, check_submitted. cbn zeta.
  rewrite Hs. cbn [check_submitted_loop].
  assert (E : (if p_checksubmit self then self else self) = self)
    by (destruct (p_checksubmit self); reflexivity).
  rewrite E, Hp. reflexivity.
Qed.

(** X11. A step on an idle broker (nothing submitted, nothing pending, every
    position flat) changes nothing at all: no cash moves, no position is
    created or re-based, nothing is notified. *)
Theorem next_idle (feed : Feed) (self : BrokerBack) :
  submitted self = [] ->
  pending self = [] ->
  (forall d pos, positions self !! d = Some pos -> Position.size pos = 0) ->
  next feed self = self.
Proof.
  intros Hs Hp Hz. unfold next. cbn zeta.
  rewrite (next_matched_idle feed self Hs Hp).
  apply sweep_flat. apply Forall_forall. intros [d pos] Hin.
  apply elem_of_map_to_list in Hin. exact (Hz d pos Hin).
Qed.

Lemma next_idle_witness :
  next scenarioF_feed scenarioF_broker = scenarioF_broker.
Proof.
  apply next_idle; [reflexivity|reflexivity|].
  intros d pos H. unfold scenarioF_broker, init in H. cbn in H.
  rewrite lookup_empty in H. discriminate H.
Defined.

(** X12. Registering a commission scheme under a name makes it the scheme of the
    data feeds of that name and of no other; registering it without a name
    makes it the scheme of all the feeds whose name is not registered.  A
    later registration under the same name replaces the earlier one. *)
Theorem addcommissioninfo_lookup (feed : Feed) (self : BrokerBack)
    (ci : CommInfo.t) :
  (forall n d,
     Data._name (feed d) = n ->
     getcommissioninfo feed (addcommissioninfo self ci (Some n)) d = ci)
  /\ (forall n d,
        Data._name (feed d) <> n ->
        getcommissioninfo feed (addcommissioninfo self ci (Some n)) d
        = getcommissioninfo feed self d)
  /\ (forall d,
        comminfo self !! Data._name (feed d) = None ->
        getcommissioninfo feed (addcommissioninfo self ci None) d = ci)
  /\ (forall d c,
        comminfo self !! Data._name (feed d) = Some c ->
        getcommissioninfo feed (addcommissioninfo self ci None) d = c)
  /\ (forall n ci',
        addcommissioninfo (addcommissioninfo self ci' (Some n)) ci (Some n)
        = addcommissioninfo self ci (Some n)).
Proof.
  unfold getcommissioninfo, addcommissioninfo.
  split; [|split; [|split; [|split]]].
  - intros n d <-. cbn. rewrite lookup_insert_eq. reflexivity.
  - intros n d Hne. cbn. rewrite lookup_insert_ne by congruence. reflexivity.
  - intros d E. cbn. rewrite E. reflexivity.
  - intros d c E. cbn. rewrite E. reflexivity.
  - intros n ci'. unfold with_comminfo. cbn. rewrite insert_insert_eq.
    reflexivity.
Qed.

(** X13. [start] after [set_cash]: whatever the broker went through before, its
    cash and its starting cash are the amount set, its queues, positions and
    notifications are empty, its commission schemes are kept, and its total
    value is that amount. *)
Theorem start_resets_books (feed : Feed) (self : BrokerBack) (c : Qc) :
  let self' := start (set_cash self c) in
  get_cash self' = c
  /\ startingcash self' = c
  /\ pending self' = [] /\ submitted self' = [] /\ notifs self' = []
  /\ orders self' = []
  /\ (forall d, position_of self' d = Position.new)
  /\ (forall d, getcommissioninfo feed self' d = getcommissioninfo feed self d)
  /\ (get_value feed self' None).1 = c
  /\ (get_value feed self' (Some [])).1 = c
  /\ next feed self' = self'.
Proof.
  cbn zeta.
  split; [reflexivity|]. split; [reflexivity|]. split; [reflexivity|].
  split; [reflexivity|]. split; [reflexivity|]. split; [reflexivity|].
  split.
  { intros d. unfold position_of, start. cbn. rewrite lookup_empty.
    reflexivity. }
  split; [intros d; reflexivity|].
  split.
  { unfold get_value, start, set_cash. cbn. rewrite map_to_list_empty. cbn.
    ring. }
  split.
  { unfold get_value, start, set_cash. cbn. rewrite map_to_list_empty. cbn.
    ring. }
  unfold next. cbn zeta.
  rewrite (next_matched_idle feed (start (set_cash self c)) eq_refl eq_refl).
  apply sweep_flat. unfold start. cbn [positions].
  rewrite map_to_list_empty. constructor.
Qed.

(** X14. [orderstatus] fails on every order the broker has registered: once
    [submit] has put an order in the register (submission check enabled), the
    lookup finds it and the attribute access on the index raises, in that
    state and in every later one.  For an order that is not registered it
    returns the status of the order it was given. *)
Theorem orderstatus_registered (self : BrokerBack) (o : Order.t) :
  (p_checksubmit self = true ->
   forall self' o',
     extends (submit self o).1 self' ->
     Order.ref o' = Order.ref o ->
     orderstatus self' o' = None)
  /\ (p_checksubmit self = false ->
      Order.ref o ∉ orders self ->
      orderstatus (submit self o).1 (submit self o).2 = Some Order.Accepted)
  /\ (forall o', Order.ref o' ∉ orders self ->
                 orderstatus self o' = Some (Order.status o')).
Proof.
  split; [|split].
  - intros Hc self' o' (_ & _ & Hpre) Hr. unfold orderstatus.
    rewrite bool_decide_eq_true_2; [reflexivity|].
    unfold submit in Hpre. rewrite Hc in Hpre. cbn in Hpre.
    destruct Hpre as [k ->]. rewrite Hr.
    apply elem_of_app. left. apply elem_of_app. right.
    apply list_elem_of_singleton. reflexivity.
  - intros Hc Hnin. unfold orderstatus, submit. rewrite Hc.
    unfold submit_accept. cbn.
    rewrite bool_decide_eq_false_2 by exact Hnin. reflexivity.
  - intros o' Hnin. unfold orderstatus.
    rewrite bool_decide_eq_false_2 by exact Hnin. reflexivity.
Qed.

(** ** Executions that execute nothing *)




(** X16. An execution that neither closes nor opens anything - the volume filler
    had nothing to give, or the size left to execute is zero - leaves no
    trace: the order is returned as it came, nothing is notified, the cash,
    the queues and the register are the same and every position reads as
    before. *)
Theorem execute_nothing (feed : Feed) (self : BrokerBack) (order : Order.t)
    (ago : Z) (price : Qc) :
  let pos := position_of self (Order.data order) in
  let u := Position.pseudoupdate pos (fill_size feed self order ago price)
             price in
  tup_opened u = 0 ->
  tup_closed u = 0 ->
  let r := _execute feed self order (RealExec ago price) in
  res_order r = order
  /\ cash (res_self r) = cash self
  /\ notifs (res_self r) = notifs self
  /\ pending (res_self r) = pending self
  /\ submitted (res_self r) = submitted self
  /\ orders (res_self r) = orders self
  /\ (forall d, position_of (res_self r) d = position_of self d)
  /\ (forall d, getcommissioninfo feed (res_self r) d
                = getcommissioninfo feed self d).
Proof.
  cbn zeta. intros Ho Hc.
  rewrite <- positions_getitem_value in Ho, Hc.
  unfold fill_size in Ho, Hc.
  unfold _execute. cbn zeta. cbn match. cbn [is_real].
  rewrite Hc, Ho.
  rewrite truthy_0. cbn iota.
  assert (Z0 : truthy (0 + 0) = false) by reflexivity.
  rewrite Z0. cbn [andb]. cbn iota.
  cbn [res_order res_self cash notifs pending submitted orders with_positions].
  pose proof (positions_getitem_queues self (Order.data order))
    as (Hq1 & Hq2 & _).
  assert (Hq3 : orders (positions_getitem self (Order.data order)).2
                = orders self).
  { unfold positions_getitem.
    destruct (positions self !! Order.data order); reflexivity. }
  split; [reflexivity|].
  split; [apply positions_getitem_cash|].
  split; [apply positions_getitem_notifs|].
  split; [exact Hq1|]. split; [exact Hq2|]. split; [exact Hq3|].
  split.
  - intros d. unfold position_of at 1. cbn [positions with_positions].
    destruct (decide (Order.data order = d)) as [<-|Hd].
    + rewrite lookup_insert_eq. cbn [default].
      apply positions_getitem_value.
    + rewrite lookup_insert_ne by exact Hd.
      apply (positions_getitem_lookup self (Order.data order) d).
  - intros d. apply (positions_getitem_comminfo feed self (Order.data order)).
Qed.

Lemma execute_nothing_witness :
  let r := _execute scenarioF_feed empty_broker empty_order
             (RealExec 0 (Qz 107)) in
  res_order r = empty_order
  /\ cash (res_self r) = cash empty_broker
  /\ notifs (res_self r) = notifs empty_broker
  /\ pending (res_self r) = pending empty_broker
  /\ submitted (res_self r) = submitted empty_broker
  /\ orders (res_self r) = orders empty_broker
  /\ (forall d, position_of (res_self r) d = position_of empty_broker d)
  /\ (forall d, getcommissioninfo scenarioF_feed (res_self r) d
                = getcommissioninfo scenarioF_feed empty_broker d).
Proof.
  apply (execute_nothing scenarioF_feed empty_broker empty_order 0 (Qz 107)).
  - reflexivity.
  - reflexivity.
Defined.

(** ** Fills that only close *)

(** X17. A fill that closes and opens nothing is never turned down, however
    little cash the broker holds: it is recorded on the order as one fill of
    the closed size at the fill price with an empty open leg, the order is
    notified exactly once, with the status [execute] gave it and not Margin,
    and the position is updated by the closed size. *)
Theorem execute_pure_close (feed : Feed) (self : BrokerBack) (order : Order.t)
    (ago : Z) (price : Qc) :
  let pos := position_of self (Order.data order) in
  let u := Position.pseudoupdate pos (fill_size feed self order ago price)
             price in
  tup_opened u = 0 ->
  tup_closed u <> 0 ->
  let r := _execute feed self order (RealExec ago price) in
  exists bit,
    res_order r = Order.execute order bit
    /\ Order.size bit = tup_closed u
    /\ Order.closed bit = tup_closed u
    /\ Order.opened bit = 0
    /\ Order.openedvalue bit = 0
    /\ Order.openedcomm bit = 0
    /\ Order.price bit = price
    /\ Order.dt bit = Data.datetime (feed (Order.data order)) ago
    /\ notifs (res_self r) = notifs self ++ [res_order r]
    /\ position_of (res_self r) (Order.data order)
       = (Position.update pos (tup_closed u) price).1.
Proof.
  cbn zeta. intros Ho Hc.
  rewrite <- positions_getitem_value in Ho, Hc.
  rewrite <- positions_getitem_value.
  unfold fill_size in Ho, Hc. unfold fill_size.
  unfold _execute. cbn zeta. cbn match. cbn [is_real].
  rewrite Ho.
  apply truthy_true in Hc. rewrite Hc. cbn iota.
  rewrite truthy_0. cbn iota.
  assert (E : forall x : Qc, x + 0 = x) by (intros x; ring).
  rewrite E, Hc. cbn iota. cbn [andb]. cbn iota.
  eexists. split; [reflexivity|].
  cbn [Order.size Order.closed Order.opened Order.openedvalue
       Order.openedcomm Order.price Order.dt res_order res_self].
  repeat (split; [reflexivity|]).
  split.
  - unfold notify, with_positions, with_cash. cbn [notifs].
    rewrite positions_getitem_notifs. reflexivity.
  - unfold position_of at 1. cbn [positions with_positions].
    rewrite lookup_insert_eq. reflexivity.
Qed.

Lemma execute_pure_close_witness :
  let r := _execute voiding_feed flatten_broker flatten_order
             (RealExec 0 (Qz 100)) in
  exists bit,
    res_order r = Order.execute flatten_order bit
    /\ Order.size bit = - Qz 10
    /\ Order.closed bit = - Qz 10
    /\ Order.opened bit = 0
    /\ Order.openedvalue bit = 0
    /\ Order.openedcomm bit = 0
    /\ Order.price bit = Qz 100
    /\ Order.dt bit = Qz 10
    /\ notifs (res_self r) = notifs flatten_broker ++ [res_order r]
    /\ position_of (res_self r) 0%nat
       = (Position.update (Position.mk (Qz 10) (Qz 100) (Qz 100))
            (- Qz 10) (Qz 100)).1.
Proof.
  apply (execute_pure_close voiding_feed flatten_broker flatten_order 0
           (Qz 100)).
  - reflexivity.
  - intros H. apply (f_equal Qcanon.this) in H. vm_compute in H.
    discriminate H.
Defined.

(** ** A broker with two pending orders *)

Lemma cancel_removes_first_witness :
  cancel queue_broker queue_second
  = (true, notify (with_pending [queue_first]%list queue_broker)
             (Order.cancel queue_second)).
Proof.
  apply (proj1 (cancel_removes_first queue_broker queue_second)
           [queue_first]%list queue_second [] eq_refl eq_refl).
  intros x Hx. apply list_elem_of_singleton in Hx. subst x. discriminate.
Defined.

Lemma addcommissioninfo_lookup_witness :
  getcommissioninfo scenarioF_feed
    (addcommissioninfo scenarioF_broker (futures_scheme (Qz 10) (Qz 5) 0)
       (Some "asset")) 0%nat
  = futures_scheme (Qz 10) (Qz 5) 0.
Proof.
  exact (proj1 (addcommissioninfo_lookup scenarioF_feed scenarioF_broker
                  (futures_scheme (Qz 10) (Qz 5) 0)) "asset" 0%nat eq_refl).
Defined.

Lemma orderstatus_registered_witness :
  orderstatus (submit scenarioF_broker scenarioF_order).1 scenarioF_order
  = None.
Proof.
  apply (proj1 (orderstatus_registered scenarioF_broker scenarioF_order)
           eq_refl (submit scenarioF_broker scenarioF_order).1
           scenarioF_order).
  - repeat split; apply prefix_of_refl || reflexivity.
  - reflexivity.
Defined.

Lemma next_keeps_fifo_witness :
  exists rs,
    Order.ref <$> pending (next_loop scenarioF_feed 2 queue_broker)
    = (Order.ref <$> drop 2 (pending queue_broker)) ++ rs
    /\ rs `sublist_of` (Order.ref <$> take 2 (pending queue_broker)).
Proof.
  apply (proj2 (next_keeps_fifo scenarioF_feed queue_broker) 2%nat).
  cbn. lia.
Defined.

Lemma try_exec_at_most_one_fill_witness :
  length (new_fills scenarioF_order
            (_try_exec scenarioF_feed scenarioF_broker scenarioF_order).2)
  = 1%nat
  /\ Forall (fun b =>
               Some (Order.price b)
               = (matching scenarioF_feed scenarioF_broker scenarioF_order).2
               /\ Order.dt b = Qz 10)
       (new_fills scenarioF_order
          (_try_exec scenarioF_feed scenarioF_broker scenarioF_order).2).
Proof.
  split; [vm_compute; reflexivity|]. apply Forall_forall.
  exact (proj2 (proj2 (try_exec_at_most_one_fill scenarioF_feed
                         scenarioF_broker scenarioF_order))).
Defined.

Lemma buy_sell_mirror_witness :
  stoplimit_decision false (- Qz 107) (- Qz 104) (- Qz 110) (- Qz 108)
    (- Qz 105) (- Qz 106)
  = prod_map id (fmap Qcopp)
      (stoplimit_decision true (Qz 107) (Qz 110) (Qz 104) (Qz 108) (Qz 105)
         (Qz 106)).
Proof.
  apply (proj1 (proj2 (proj2 (proj2 buy_sell_mirror)))
           true (Qz 107) (Qz 110) (Qz 104) (Qz 108) (Qz 105) (Qz 106)).
  intros H. apply (f_equal Qcanon.this) in H. vm_compute in H.
  discriminate H.
Defined.
